(** * TRestHitsEvent: the volume queries of a hits event

    A shallow embedding of [src/TRestHitsEvent.cxx] (REST legacy library) and
    the properties of its cylinder and prism queries.

    Conventions of the embedding:
    - [Double_t] is read as a real number ([R]); the comparisons of the
      source ([<], [==]) are the decidable comparisons of [R].  Rounding,
      infinities and NaN are outside the model; the one place where the
      source relies on them (a zero-length axis) is written as a guard.
      Where the order of the additions decides the result, the sums are
      also given in binary64 (module [Double]).
    - [Int_t] counters are natural numbers: every counter of the file is
      bounded by the number of hits, which the container itself reports as
      an [Int_t].
    - a member function is a computation over the event object, in a state
      monad with failure (an access outside the collection, a null cache).
    - [TVector3] and [TRestHits] belong to ROOT and to the REST framework;
      what the event class uses of them is modelled below, each definition
      saying where it comes from. *)

From Stdlib Require Import Reals Lra List ZArith Lia Permutation Bool.
From Stdlib Require Ascii String PrimFloat.
Import ListNotations.

Local Open Scope R_scope.

(** ** Comparisons of doubles *)

Definition Rltb (x y : R) : bool := if Rlt_dec x y then true else false.
Definition Rleb (x y : R) : bool := if Rle_dec x y then true else false.
Definition Reqb (x y : R) : bool := if Req_dec_T x y then true else false.

(** [std::max] and [std::min] of <algorithm>, with the comparison each one
    makes. *)
Definition std_max (a b : R) : R := if Rltb a b then b else a.
Definition std_min (a b : R) : R := if Rltb b a then b else a.

(** ** ROOT's TVector3 *)

Module TVector3.

Record t : Type := mk { X : R; Y : R; Z : R }.

(** [operator-] *)
Definition sub (a b : t) : t := mk (X a - X b) (Y a - Y b) (Z a - Z b).

(** [Dot], [Mag2] and [Mag] as ROOT defines them. *)
Definition Dot (a b : t) : R := X a * X b + Y a * Y b + Z a * Z b.
Definition Mag2 (a : t) : R := X a * X a + Y a * Y a + Z a * Z a.
Definition Mag (a : t) : R := sqrt (Mag2 a).

(** [RotateZ]: the rotation by [angle] in the plane of the first two
    coordinates. *)
Definition RotateZ (angle : R) (a : t) : t :=
  mk (cos angle * X a - sin angle * Y a)
     (sin angle * X a + cos angle * Y a)
     (Z a).

Definition zero : t := mk 0 0 0.

End TVector3.

Notation "a -v b" := (TVector3.sub a b) (at level 50, left associativity).

(** ** Hit types *)

Module REST_HitType.

Inductive t : Type := X | Y | Z | XY | XZ | YZ | XYZ.

(** Modelled from the spec: the enumerators of [REST_HitType] are declared
    in TRestHits.h, which is not part of the sources.  The spec's
    "divisibility-style composition" is the product of one prime per
    coordinate: X = 2, Y = 3, Z = 5. *)
Definition value (ty : t) : BinNums.Z :=
  match ty with
  | X => 2 | Y => 3 | Z => 5
  | XY => 6 | XZ => 10 | YZ => 15
  | XYZ => 30
  end%Z.

Definition eqb (a b : t) : bool := Z.eqb (value a) (value b).

End REST_HitType.

(** ** Hits and the hit container *)

Record Hit : Type := mkHit {
  hit_pos : TVector3.t;
  hit_energy : R;
  hit_time : R;
  hit_type : REST_HitType.t
}.

(** The part of [TRestHits] that the event class touches: the hits, in
    insertion order, and the stored total energy [fTotEnergy]. *)
Record TRestHits : Type := mkHits {
  hits : list Hit;
  fTotEnergy : R
}.

Module Hits.

(** Modelled from the spec: the containment predicate of the cylinder
    (TRestHits::isHitNInsideCylinder is not part of the sources).  With
    axis = x1 - x0, L = |axis| and l = axis.(P - x0)/L, a point is inside
    iff 0 <= l <= L and |P - x0|^2 - l^2 <= radius^2; with L = 0 no point
    is inside. *)
Definition insideCylinder (P x0 x1 : TVector3.t) (radius : R) : bool :=
  let axis := x1 -v x0 in
  let L := TVector3.Mag axis in
  let l := TVector3.Dot axis (P -v x0) / L in
  let perp2 := TVector3.Mag2 (P -v x0) - l * l in
  negb (Reqb L 0) && Rleb 0 l && Rleb l L && Rleb perp2 (radius * radius).

(** Modelled from the spec: the containment predicate of the prism
    (TRestHits::isHitNInsidePrism is not part of the sources).  The
    displacement P - x0 is rotated by theta into the local frame, the
    rotation acting on the two in-plane coordinates only; the point is
    inside iff 0 <= l <= L, |local_u| <= sizeX/2 and |local_v| <= sizeY/2.
    The in-plane coordinates are the first two of the rotated vector, which
    is the frame of a prism whose axis is along the third coordinate. *)
Definition local (P x0 : TVector3.t) (theta : R) : TVector3.t :=
  TVector3.RotateZ theta (P -v x0).

Definition insidePrism (P x0 x1 : TVector3.t) (sizeX sizeY theta : R) : bool :=
  let axis := x1 -v x0 in
  let L := TVector3.Mag axis in
  let l := TVector3.Dot axis (P -v x0) / L in
  let hitPos := local P x0 theta in
  negb (Reqb L 0) && Rleb 0 l && Rleb l L
    && Rleb (Rabs (TVector3.X hitPos)) (sizeX / 2)
    && Rleb (Rabs (TVector3.Y hitPos)) (sizeY / 2).

(** Modelled from the spec: the index-based accessors of the container;
    an index outside the collection is an out-of-bounds failure. *)
Definition GetNumberOfHits (hs : TRestHits) : nat := length (hits hs).

Definition GetHit (hs : TRestHits) (n : nat) : option Hit :=
  nth_error (hits hs) n.

Definition isHitNInsideCylinder (hs : TRestHits) (n : nat)
    (x0 x1 : TVector3.t) (radius : R) : option bool :=
  option_map (fun h => insideCylinder (hit_pos h) x0 x1 radius) (GetHit hs n).

Definition isHitNInsidePrism (hs : TRestHits) (n : nat)
    (x0 x1 : TVector3.t) (sizeX sizeY theta : R) : option bool :=
  option_map (fun h => insidePrism (hit_pos h) x0 x1 sizeX sizeY theta)
             (GetHit hs n).

(** Modelled from the spec: the aggregates of TRestHits over the hits for
    which a containment predicate [inside] holds: their number, the sum of
    their energies (0 if none), and the mean of their positions, coordinate
    by coordinate (the zero vector if none). *)
Section Aggregates.
Variable inside : TVector3.t -> bool.

Definition contained (l : list Hit) : list Hit :=
filter (fun h => inside (hit_pos h)) l.

Definition countInside (l : list Hit) : nat := length (contained l).

Definition Rsum (l : list R) : R := fold_left Rplus l 0.

Definition energyInside (l : list Hit) : R :=
Rsum (map hit_energy (contained l)).

Definition meanPositionInside (l : list Hit) : TVector3.t :=
let c := contained l in
match c with
| [] => TVector3.zero
| _ :: _ =>
    let n := INR (length c) in
    TVector3.mk (Rsum (map (fun h => TVector3.X (hit_pos h)) c) / n)
                (Rsum (map (fun h => TVector3.Y (hit_pos h)) c) / n)
                (Rsum (map (fun h => TVector3.Z (hit_pos h)) c) / n)
end.
End Aggregates.

Definition GetNumberOfHitsInsideCylinder hs x0 x1 radius : nat :=
countInside (fun P => insideCylinder P x0 x1 radius) (hits hs).
Definition GetEnergyInCylinder hs x0 x1 radius : R :=
energyInside (fun P => insideCylinder P x0 x1 radius) (hits hs).
Definition GetMeanPositionInCylinder hs x0 x1 radius : TVector3.t :=
meanPositionInside (fun P => insideCylinder P x0 x1 radius) (hits hs).

Definition GetNumberOfHitsInsidePrism hs x0 x1 sizeX sizeY theta : nat :=
countInside (fun P => insidePrism P x0 x1 sizeX sizeY theta) (hits hs).
Definition GetEnergyInPrism hs x0 x1 sizeX sizeY theta : R :=
energyInside (fun P => insidePrism P x0 x1 sizeX sizeY theta) (hits hs).
Definition GetMeanPositionInPrism hs x0 x1 sizeX sizeY theta : TVector3.t :=
meanPositionInside (fun P => insidePrism P x0 x1 sizeX sizeY theta) (hits hs).

(** Modelled from the spec: [RemoveHits] empties the collection and
    [AddHit] appends one hit to it.  The spec does not say what they do to
    the stored total, which is left as it is. *)
Definition RemoveHits (hs : TRestHits) : TRestHits :=
  mkHits [] (fTotEnergy hs).

Definition AddHit (hs : TRestHits) (x y z en t : R) (ty : REST_HitType.t)
    : TRestHits :=
  mkHits (hits hs ++ [mkHit (TVector3.mk x y z) en t ty]) (fTotEnergy hs).

End Hits.

(** ** The event object and its member functions *)

(** The data members that the modelled functions read or write: the hits
    (held by value) and the three caches filled by GetXZHits, GetYZHits and
    GetXYZHits (pointers, null until Initialize).  The drawing members
    (pads, graphs, histograms, axis ranges) are left out. *)
Record TRestHitsEvent : Type := mkEvent {
  fHits : TRestHits;
  fXZHits : option TRestHits;
  fYZHits : option TRestHits;
  fXYZHits : option TRestHits
}.

(** A member function: from the object to a result and the object after
    the call, or a failure. *)
Definition M (A : Type) : Type := TRestHitsEvent -> option (A * TRestHitsEvent).

Definition ret {A} (a : A) : M A := fun this => Some (a, this).

Definition bind {A B} (c : M A) (k : A -> M B) : M B :=
  fun this =>
    match c this with
    | Some (a, this') => k a this'
    | None => None
    end.

Definition fail {A} : M A := fun _ => None.

Definition get : M TRestHitsEvent := fun this => Some (this, this).

Definition put (ev : TRestHitsEvent) : M unit := fun _ => Some (tt, ev).

Definition lift_option {A} (o : option A) : M A :=
  match o with
  | Some a => ret a
  | None => fail
  end.

Declare Scope member_scope.
Delimit Scope member_scope with member.
Notation "x <- c ;; k" := (bind c (fun x => k))
  (at level 61, c at next level, right associativity) : member_scope.
Notation "' pat <- c ;; k" := (bind c (fun x => match x with pat => k end))
  (at level 61, pat pattern, c at next level, right associativity) : member_scope.
Notation "c ;; k" := (bind c (fun _ => k))
  (at level 61, right associativity) : member_scope.
Local Open Scope member_scope.

(** [for (int n = from; n < from + count; n++) body], the local variables
    of the loop carried in [s].  The loops of the source run [n] from 0 up to
    GetNumberOfHits(), which no loop body changes: the bound is read once. *)
Fixpoint for_loop {S : Type} (body : nat -> S -> M S) (from count : nat) (s : S)
    : M S :=
  match count with
  | O => ret s
  | Datatypes.S count' => s' <- body from s ;; for_loop body (Datatypes.S from) count' s'
  end.

(** Modelled from the spec: the accessors of the event, declared inline in
    TRestHitsEvent.h (not part of the sources); each forwards to [fHits]. *)
Definition GetNumberOfHits : M nat :=
  this <- get ;; ret (Hits.GetNumberOfHits (fHits this)).

Definition GetHit (n : nat) : M Hit :=
  this <- get ;; lift_option (Hits.GetHit (fHits this) n).

Definition GetPosition (n : nat) : M TVector3.t := h <- GetHit n ;; ret (hit_pos h).
Definition GetX (n : nat) : M R := h <- GetHit n ;; ret (TVector3.X (hit_pos h)).
Definition GetY (n : nat) : M R := h <- GetHit n ;; ret (TVector3.Y (hit_pos h)).
Definition GetZ (n : nat) : M R := h <- GetHit n ;; ret (TVector3.Z (hit_pos h)).
Definition GetEnergy (n : nat) : M R := h <- GetHit n ;; ret (hit_energy h).
Definition GetTime (n : nat) : M R := h <- GetHit n ;; ret (hit_time h).
Definition GetType (n : nat) : M REST_HitType.t := h <- GetHit n ;; ret (hit_type h).

(** Calls on the member [fHits]. *)
Definition fHits_isHitNInsideCylinder n x0 x1 radius : M bool :=
  this <- get ;; lift_option (Hits.isHitNInsideCylinder (fHits this) n x0 x1 radius).

Definition fHits_isHitNInsidePrism n x0 x1 sizeX sizeY theta : M bool :=
  this <- get ;;
  lift_option (Hits.isHitNInsidePrism (fHits this) n x0 x1 sizeX sizeY theta).

(** *** Containment and aggregation over a cylinder *)

Definition anyHitInsideCylinder (x0 x1 : TVector3.t) (radius : R) : M bool :=
  this <- get ;;
  if Nat.ltb 0 (Hits.GetNumberOfHitsInsideCylinder (fHits this) x0 x1 radius)
  then ret true
  else ret false.

Definition allHitsInsideCylinder (x0 x1 : TVector3.t) (radius : R) : M bool :=
  this <- get ;;
  N <- GetNumberOfHits ;;
  if Nat.eqb (Hits.GetNumberOfHitsInsideCylinder (fHits this) x0 x1 radius) N
  then ret true
  else ret false.

Definition GetEnergyInCylinder (x0 x1 : TVector3.t) (radius : R) : M R :=
  this <- get ;; ret (Hits.GetEnergyInCylinder (fHits this) x0 x1 radius).

Definition GetNumberOfHitsInsideCylinder (x0 x1 : TVector3.t) (radius : R) : M nat :=
  this <- get ;; ret (Hits.GetNumberOfHitsInsideCylinder (fHits this) x0 x1 radius).

Definition GetMeanPositionInCylinder (x0 x1 : TVector3.t) (radius : R)
    : M TVector3.t :=
  this <- get ;; ret (Hits.GetMeanPositionInCylinder (fHits this) x0 x1 radius).

(** *** Containment and aggregation over a prism *)

Definition anyHitInsidePrism (x0 x1 : TVector3.t) (sizeX sizeY theta : R) : M bool :=
  this <- get ;;
  if Nat.ltb 0 (Hits.GetNumberOfHitsInsidePrism (fHits this) x0 x1 sizeX sizeY theta)
  then ret true
  else ret false.

Definition allHitsInsidePrism (x0 x1 : TVector3.t) (sizeX sizeY theta : R) : M bool :=
  this <- get ;;
  N <- GetNumberOfHits ;;
  if Nat.eqb (Hits.GetNumberOfHitsInsidePrism (fHits this) x0 x1 sizeX sizeY theta) N
  then ret true
  else ret false.

Definition GetEnergyInPrism (x0 x1 : TVector3.t) (sizeX sizeY theta : R) : M R :=
  this <- get ;; ret (Hits.GetEnergyInPrism (fHits this) x0 x1 sizeX sizeY theta).

Definition GetNumberOfHitsInsidePrism (x0 x1 : TVector3.t) (sizeX sizeY theta : R)
    : M nat :=
  this <- get ;;
  ret (Hits.GetNumberOfHitsInsidePrism (fHits this) x0 x1 sizeX sizeY theta).

Definition GetMeanPositionInPrism (x0 x1 : TVector3.t) (sizeX sizeY theta : R)
    : M TVector3.t :=
  this <- get ;;
  ret (Hits.GetMeanPositionInPrism (fHits this) x0 x1 sizeX sizeY theta).

(** *** Closest contained hit to the faces of a cylinder *)

Definition GetClosestHitInsideDistanceToCylinderWall
    (x0 x1 : TVector3.t) (radius : R) : M R :=
  let rad2 := radius * radius in
  let hitDistance := rad2 in
  let axis := x1 -v x0 in
  let cylLength := TVector3.Mag axis in
  let nhits := 0%nat in
  N <- GetNumberOfHits ;;
  '(hitDistance, nhits) <-
    for_loop (fun n '(hitDistance, nhits) =>
      inside <- fHits_isHitNInsideCylinder n x0 x1 radius ;;
      if inside : bool then
        p <- GetPosition n ;;
        let l := TVector3.Dot axis (p -v x0) / cylLength in
        p <- GetPosition n ;;
        let d2 := rad2 - TVector3.Mag2 (p -v x0) + l * l in
        let hitDistance := if Rltb d2 hitDistance then d2 else hitDistance in
        ret (hitDistance, Datatypes.S nhits)
      else ret (hitDistance, nhits)) 0 N (hitDistance, nhits) ;;
  if Nat.eqb nhits 0 then ret (-1) else ret (sqrt hitDistance).

Definition GetClosestHitInsideDistanceToCylinderTop
    (x0 x1 : TVector3.t) (radius : R) : M R :=
  let axis := x1 -v x0 in
  let cylLength := TVector3.Mag axis in
  let hitDistance := cylLength in
  let nhits := 0%nat in
  N <- GetNumberOfHits ;;
  '(hitDistance, nhits) <-
    for_loop (fun n '(hitDistance, nhits) =>
      inside <- fHits_isHitNInsideCylinder n x0 x1 radius ;;
      if inside : bool then
        p <- GetPosition n ;;
        let d := cylLength - TVector3.Dot axis (p -v x0) / cylLength in
        let hitDistance := if Rltb d hitDistance then d else hitDistance in
        ret (hitDistance, Datatypes.S nhits)
      else ret (hitDistance, nhits)) 0 N (hitDistance, nhits) ;;
  if Nat.eqb nhits 0 then ret (-1) else ret hitDistance.

Definition GetClosestHitInsideDistanceToCylinderBottom
    (x0 x1 : TVector3.t) (radius : R) : M R :=
  let axis := x1 -v x0 in
  let cylLength := TVector3.Mag axis in
  let hitDistance := cylLength in
  let nhits := 0%nat in
  N <- GetNumberOfHits ;;
  '(hitDistance, nhits) <-
    for_loop (fun n '(hitDistance, nhits) =>
      inside <- fHits_isHitNInsideCylinder n x0 x1 radius ;;
      if inside : bool then
        p <- GetPosition n ;;
        let d := TVector3.Dot axis (p -v x0) / cylLength in
        let hitDistance := if Rltb d hitDistance then d else hitDistance in
        ret (hitDistance, Datatypes.S nhits)
      else ret (hitDistance, nhits)) 0 N (hitDistance, nhits) ;;
  if Nat.eqb nhits 0 then ret (-1) else ret hitDistance.

(** *** Closest contained hit to the faces of a prism *)

Definition GetClosestHitInsideDistanceToPrismWall
    (x0 x1 : TVector3.t) (sizeX sizeY theta : R) : M R :=
  let dX := sizeX / 2 in
  let dY := sizeY / 2 in
  let hitDistance := std_max dX dY in
  let nhits := 0%nat in
  N <- GetNumberOfHits ;;
  '(hitDistance, nhits) <-
    for_loop (fun n '(hitDistance, nhits) =>
      inside <- fHits_isHitNInsidePrism n x0 x1 sizeX sizeY theta ;;
      if inside : bool then
        p <- GetPosition n ;;
        let dX := sizeX / 2 - Rabs (TVector3.X (p -v x0)) in
        p <- GetPosition n ;;
        let dY := sizeY / 2 - Rabs (TVector3.Y (p -v x0)) in
        let d := std_min dX dY in
        let hitDistance := if Rltb d hitDistance then d else hitDistance in
        ret (hitDistance, Datatypes.S nhits)
      else ret (hitDistance, nhits)) 0 N (hitDistance, nhits) ;;
  if Nat.eqb nhits 0 then ret (-1) else ret hitDistance.

Definition GetClosestHitInsideDistanceToPrismTop
    (x0 x1 : TVector3.t) (sizeX sizeY theta : R) : M R :=
  let axis := x1 -v x0 in
  let prismLength := TVector3.Mag axis in
  let hitDistance := prismLength in
  let nhits := 0%nat in
  N <- GetNumberOfHits ;;
  '(hitDistance, nhits) <-
    for_loop (fun n '(hitDistance, nhits) =>
      inside <- fHits_isHitNInsidePrism n x0 x1 sizeX sizeY theta ;;
      if inside : bool then
        p <- GetPosition n ;;
        let d := prismLength - TVector3.Dot axis (p -v x0) / prismLength in
        let hitDistance := if Rltb d hitDistance then d else hitDistance in
        ret (hitDistance, Datatypes.S nhits)
      else ret (hitDistance, nhits)) 0 N (hitDistance, nhits) ;;
  if Nat.eqb nhits 0 then ret (-1) else ret hitDistance.

Definition GetClosestHitInsideDistanceToPrismBottom
    (x0 x1 : TVector3.t) (sizeX sizeY theta : R) : M R :=
  let axis := x1 -v x0 in
  let prismLength := TVector3.Mag axis in
  let hitDistance := prismLength in
  let nhits := 0%nat in
  N <- GetNumberOfHits ;;
  '(hitDistance, nhits) <-
    for_loop (fun n '(hitDistance, nhits) =>
      inside <- fHits_isHitNInsidePrism n x0 x1 sizeX sizeY theta ;;
      if inside : bool then
        p <- GetPosition n ;;
        let d := TVector3.Dot axis (p -v x0) / prismLength in
        let hitDistance := if Rltb d hitDistance then d else hitDistance in
        ret (hitDistance, Datatypes.S nhits)
      else ret (hitDistance, nhits)) 0 N (hitDistance, nhits) ;;
  if Nat.eqb nhits 0 then ret (-1) else ret hitDistance.

(** *** Total energy *)

Definition set_fTotEnergy (sum : R) : M unit :=
  this <- get ;;
  put (mkEvent (mkHits (hits (fHits this)) sum)
               (fXZHits this) (fYZHits this) (fXYZHits this)).

Definition CalculateTotalDepositedEnergy : M R :=
  let sum := 0 in
  N <- GetNumberOfHits ;;
  sum <- for_loop (fun i sum => e <- GetEnergy i ;; ret (sum + e)) 0 N sum ;;
  set_fTotEnergy sum ;;
  ret sum.

(** *** Construction and the per-type caches *)

(** [AddHit] forwards to the container. *)
Definition AddHit (x y z en t : R) (ty : REST_HitType.t) : M unit :=
  this <- get ;;
  put (mkEvent (Hits.AddHit (fHits this) x y z en t ty)
               (fXZHits this) (fYZHits this) (fXYZHits this)).

(** [Initialize] empties the hits and replaces the three caches by fresh,
    empty containers ([new TRestHits()]). *)
Definition Initialize : M unit :=
  this <- get ;;
  let fresh := Some (mkHits [] 0) in
  put (mkEvent (Hits.RemoveHits (fHits this)) fresh fresh fresh).

(** The three cache pointers; dereferencing a null one fails. *)
Inductive Cache : Type := XZcache | YZcache | XYZcache.

Definition cache_ptr (c : Cache) (ev : TRestHitsEvent) : option TRestHits :=
  match c with
  | XZcache => fXZHits ev
  | YZcache => fYZHits ev
  | XYZcache => fXYZHits ev
  end.

Definition cache_store (c : Cache) (hs : TRestHits) (ev : TRestHitsEvent)
    : TRestHitsEvent :=
  match c with
  | XZcache => mkEvent (fHits ev) (Some hs) (fYZHits ev) (fXYZHits ev)
  | YZcache => mkEvent (fHits ev) (fXZHits ev) (Some hs) (fXYZHits ev)
  | XYZcache => mkEvent (fHits ev) (fXZHits ev) (fYZHits ev) (Some hs)
  end.

Definition cache_deref (c : Cache) : M TRestHits :=
  this <- get ;; lift_option (cache_ptr c this).

Definition cache_RemoveHits (c : Cache) : M unit :=
  hs <- cache_deref c ;;
  this <- get ;;
  put (cache_store c (Hits.RemoveHits hs) this).

Definition cache_AddHit (c : Cache) (x y z en t : R) (ty : REST_HitType.t) : M unit :=
  hs <- cache_deref c ;;
  this <- get ;;
  put (cache_store c (Hits.AddHit hs x y z en t ty) this).

(** The common body of GetXZHits, GetYZHits and GetXYZHits: the cache [c] is
    emptied, then receives every hit whose type [==] the wanted one. *)
Definition collect_hits_of_type (c : Cache) (wanted : REST_HitType.t) : M TRestHits :=
  cache_RemoveHits c ;;
  N <- GetNumberOfHits ;;
  for_loop (fun i (_ : unit) =>
    ty <- GetType i ;;
    if REST_HitType.eqb ty wanted then
      x <- GetX i ;; y <- GetY i ;; z <- GetZ i ;;
      en <- GetEnergy i ;; t <- GetTime i ;;
      cache_AddHit c x y z en t wanted
    else ret tt) 0 N tt ;;
  cache_deref c.

Definition GetXZHits : M TRestHits := collect_hits_of_type XZcache REST_HitType.XZ.
Definition GetYZHits : M TRestHits := collect_hits_of_type YZcache REST_HitType.YZ.
Definition GetXYZHits : M TRestHits := collect_hits_of_type XYZcache REST_HitType.XYZ.

(** *** The projection tests of the drawing functions *)

(** [type % T == 0], on the integer value of the hit type; [%] is the
    remainder of the truncated division. *)
Definition projects_on (T : REST_HitType.t) (type : BinNums.Z) : bool :=
  Z.eqb (Z.rem type (REST_HitType.value T)) 0.

(** The first loop of DrawGraphs: the points stored in the arrays [xz], [yz]
    and [xy]; the counters nXZ, nYZ and nXY are the lengths of the lists. *)
Definition DrawGraphs_points
    : M (list (R * R) * list (R * R) * list (R * R)) :=
  N <- GetNumberOfHits ;;
  for_loop (fun nhit '(xz, yz, xy) =>
    x <- GetX nhit ;; y <- GetY nhit ;; z <- GetZ nhit ;;
    ty <- GetType nhit ;;
    let type := REST_HitType.value ty in
    let xz := if projects_on REST_HitType.XZ type then xz ++ [(x, z)] else xz in
    let yz := if projects_on REST_HitType.YZ type then yz ++ [(y, z)] else yz in
    let xy := if projects_on REST_HitType.XY type then xy ++ [(x, y)] else xy in
    ret (xz, yz, xy)) 0 N ([], [], []).

(** The filling loop of DrawHistograms: the entries given to the three 2D
    and the three 1D histograms. *)
Record HistoEntries : Type := mkEntries {
  inXZ : list (R * R); inYZ : list (R * R); inXY : list (R * R);
  inX : list R; inY : list R; inZ : list R
}.

Definition DrawHistograms_entries : M HistoEntries :=
  N <- GetNumberOfHits ;;
  for_loop (fun nhit e =>
    x <- GetX nhit ;; y <- GetY nhit ;; z <- GetZ nhit ;;
    ty <- GetType nhit ;;
    let type := REST_HitType.value ty in
    ret (mkEntries
      (if projects_on REST_HitType.XZ type then inXZ e ++ [(x, z)] else inXZ e)
      (if projects_on REST_HitType.YZ type then inYZ e ++ [(y, z)] else inYZ e)
      (if projects_on REST_HitType.XY type then inXY e ++ [(x, y)] else inXY e)
      (if projects_on REST_HitType.X type then inX e ++ [x] else inX e)
      (if projects_on REST_HitType.Y type then inY e ++ [y] else inY e)
      (if projects_on REST_HitType.Z type then inZ e ++ [z] else inZ e)))
    0 N (mkEntries [] [] [] [] [] []).

(** ** The queries as one family *)

(** A volume descriptor and the eight queries that the event offers on it;
    [run_query] dispatches to the member function of the source. *)
Inductive Volume : Type :=
| Cylinder (x0 x1 : TVector3.t) (radius : R)
| Prism (x0 x1 : TVector3.t) (sizeX sizeY theta : R).

Inductive Query : Type :=
| AnyInside | AllInside | CountInside | EnergyInside | MeanPositionInside
| ClosestDistanceToWall | ClosestDistanceToTop | ClosestDistanceToBottom.

Inductive Result : Type :=
| Bool_r (b : bool)
| Int_r (n : nat)
| Double_r (r : R)
| Vector_r (v : TVector3.t).

Definition fmap {A B} (f : A -> B) (c : M A) : M B := a <- c ;; ret (f a).

Definition run_query (q : Query) (v : Volume) : M Result :=
  match v, q with
  | Cylinder x0 x1 r, AnyInside => fmap Bool_r (anyHitInsideCylinder x0 x1 r)
  | Cylinder x0 x1 r, AllInside => fmap Bool_r (allHitsInsideCylinder x0 x1 r)
  | Cylinder x0 x1 r, CountInside => fmap Int_r (GetNumberOfHitsInsideCylinder x0 x1 r)
  | Cylinder x0 x1 r, EnergyInside => fmap Double_r (GetEnergyInCylinder x0 x1 r)
  | Cylinder x0 x1 r, MeanPositionInside =>
      fmap Vector_r (GetMeanPositionInCylinder x0 x1 r)
  | Cylinder x0 x1 r, ClosestDistanceToWall =>
      fmap Double_r (GetClosestHitInsideDistanceToCylinderWall x0 x1 r)
  | Cylinder x0 x1 r, ClosestDistanceToTop =>
      fmap Double_r (GetClosestHitInsideDistanceToCylinderTop x0 x1 r)
  | Cylinder x0 x1 r, ClosestDistanceToBottom =>
      fmap Double_r (GetClosestHitInsideDistanceToCylinderBottom x0 x1 r)
  | Prism x0 x1 sx sy th, AnyInside => fmap Bool_r (anyHitInsidePrism x0 x1 sx sy th)
  | Prism x0 x1 sx sy th, AllInside => fmap Bool_r (allHitsInsidePrism x0 x1 sx sy th)
  | Prism x0 x1 sx sy th, CountInside =>
      fmap Int_r (GetNumberOfHitsInsidePrism x0 x1 sx sy th)
  | Prism x0 x1 sx sy th, EnergyInside => fmap Double_r (GetEnergyInPrism x0 x1 sx sy th)
  | Prism x0 x1 sx sy th, MeanPositionInside =>
      fmap Vector_r (GetMeanPositionInPrism x0 x1 sx sy th)
  | Prism x0 x1 sx sy th, ClosestDistanceToWall =>
      fmap Double_r (GetClosestHitInsideDistanceToPrismWall x0 x1 sx sy th)
  | Prism x0 x1 sx sy th, ClosestDistanceToTop =>
      fmap Double_r (GetClosestHitInsideDistanceToPrismTop x0 x1 sx sy th)
  | Prism x0 x1 sx sy th, ClosestDistanceToBottom =>
      fmap Double_r (GetClosestHitInsideDistanceToPrismBottom x0 x1 sx sy th)
  end.

(** A sequence of queries, one after the other, their results dropped. *)
Fixpoint run_queries (qs : list (Query * Volume)) : M unit :=
  match qs with
  | [] => ret tt
  | (q, v) :: qs' => run_query q v ;; run_queries qs'
  end.


(** ** The quantities that the properties speak of *)

(** One turn of the loops of the closest-distance functions, on the local
    variables (hitDistance, nhits): a hit that is [inside] lowers hitDistance
    to its distance [dist] when that is smaller, and is counted. *)
Definition min_step (inside : Hit -> bool) (dist : Hit -> R)
    (acc : R * nat) (h : Hit) : R * nat :=
  if inside h
  then (if Rltb (dist h) (fst acc) then dist h else fst acc, Datatypes.S (snd acc))
  else acc.

(** [m] is the minimum of the values of [l]. *)
Definition is_min_of (m : R) (l : list R) : Prop :=
  In m l /\ forall x, In x l -> m <= x.

(** The result of a closest-distance function whose contained hits have the
    distances [ds]: -1 without any, and otherwise [post] of the running
    minimum started at [init]. *)
Definition closest_of (post : R -> R) (init : R) (ds : list R) : R :=
  match ds with
  | [] => -1
  | _ :: _ => post (fold_left Rmin ds init)
  end.

(** The signed axial coordinate l = axis.(P - x0)/L of a point. *)
Definition axial (x0 x1 P : TVector3.t) : R :=
  TVector3.Dot (x1 -v x0) (P -v x0) / TVector3.Mag (x1 -v x0).

(** radius^2 - |P - x0|^2 + l^2, the square under the root of the wall
    distance of a cylinder. *)
Definition wall_d2 (x0 x1 : TVector3.t) (radius : R) (P : TVector3.t) : R :=
  radius * radius - TVector3.Mag2 (P -v x0) + axial x0 x1 P * axial x0 x1 P.

(** L - l, the distance of a point to the top face. *)
Definition top_d (x0 x1 P : TVector3.t) : R :=
  TVector3.Mag (x1 -v x0) - axial x0 x1 P.

(** What GetClosestHitInsideDistanceToPrismWall takes as the wall distance
    of a point: the smaller of the two margins, each measured on a
    coordinate of P - x0 as it stands. *)
Definition prism_wall_d (x0 : TVector3.t) (sizeX sizeY : R) (P : TVector3.t) : R :=
  std_min (sizeX / 2 - Rabs (TVector3.X (P -v x0)))
          (sizeY / 2 - Rabs (TVector3.Y (P -v x0))).

(** The wall distance of a point in the local frame of the prism: the
    smaller of dX = sizeX/2 - |local_u| and dY = sizeY/2 - |local_v|. *)
Definition prism_local_wall_d (x0 : TVector3.t) (sizeX sizeY theta : R)
    (P : TVector3.t) : R :=
  Rmin (sizeX / 2 - Rabs (TVector3.X (Hits.local P x0 theta)))
       (sizeY / 2 - Rabs (TVector3.Y (Hits.local P x0 theta))).

(** The hits of the event that are contained in a volume. *)
Definition inside_volume (v : Volume) (P : TVector3.t) : bool :=
  match v with
  | Cylinder x0 x1 radius => Hits.insideCylinder P x0 x1 radius
  | Prism x0 x1 sizeX sizeY theta => Hits.insidePrism P x0 x1 sizeX sizeY theta
  end.

Definition contained_in (v : Volume) (ev : TRestHitsEvent) : list Hit :=
  Hits.contained (inside_volume v) (hits (fHits ev)).

(** The distances of the contained hits [c] that a closest-distance query
    minimises, the start of its running minimum and what it returns of it. *)
Definition closest_value (q : Query) (v : Volume) (c : list Hit) : R :=
  match q, v with
  | ClosestDistanceToWall, Cylinder x0 x1 radius =>
      closest_of sqrt (radius * radius)
        (map (fun h => wall_d2 x0 x1 radius (hit_pos h)) c)
  | ClosestDistanceToWall, Prism x0 x1 sizeX sizeY theta =>
      closest_of (fun d => d) (std_max (sizeX / 2) (sizeY / 2))
        (map (fun h => prism_wall_d x0 sizeX sizeY (hit_pos h)) c)
  | ClosestDistanceToTop, Cylinder x0 x1 _
  | ClosestDistanceToTop, Prism x0 x1 _ _ _ =>
      closest_of (fun d => d) (TVector3.Mag (x1 -v x0))
        (map (fun h => top_d x0 x1 (hit_pos h)) c)
  | _, Cylinder x0 x1 _
  | _, Prism x0 x1 _ _ _ =>
      closest_of (fun d => d) (TVector3.Mag (x1 -v x0))
        (map (fun h => axial x0 x1 (hit_pos h)) c)
  end.

(** The value of a query as a function of the volume and of the list of
    hits alone. *)
Definition query_value (q : Query) (v : Volume) (l : list Hit) : Result :=
  let c := Hits.contained (inside_volume v) l in
  match q with
  | AnyInside => Bool_r (Nat.ltb 0 (length c))
  | AllInside => Bool_r (Nat.eqb (length c) (length l))
  | CountInside => Int_r (length c)
  | EnergyInside => Double_r (Hits.Rsum (map hit_energy c))
  | MeanPositionInside => Vector_r (Hits.meanPositionInside (inside_volume v) l)
  | _ => Double_r (closest_value q v c)
  end.

(** The test of GetXZHits, GetYZHits and GetXYZHits on a hit, and the hit
    that the cache receives: the same coordinates, energy and time, under the
    wanted type. *)
Definition collects (wanted : REST_HitType.t) (h : Hit) : bool :=
  REST_HitType.eqb (hit_type h) wanted.

Definition retag (wanted : REST_HitType.t) (h : Hit) : Hit :=
  mkHit (TVector3.mk (TVector3.X (hit_pos h)) (TVector3.Y (hit_pos h))
                     (TVector3.Z (hit_pos h)))
        (hit_energy h) (hit_time h) wanted.

(** The test of the drawing loops on a hit. *)
Definition drawn_on (T : REST_HitType.t) (h : Hit) : bool :=
  projects_on T (REST_HitType.value (hit_type h)).

(** One turn of the loop of [collect_hits_of_type]. *)
Definition collect_step (c : Cache) (wanted : REST_HitType.t)
    (se : unit * TRestHitsEvent) (h : Hit) : unit * TRestHitsEvent :=
  if collects wanted h then
    match cache_ptr c (snd se) with
    | Some hs =>
        (tt, cache_store c
               (Hits.AddHit hs (TVector3.X (hit_pos h)) (TVector3.Y (hit_pos h))
                  (TVector3.Z (hit_pos h)) (hit_energy h) (hit_time h) wanted)
               (snd se))
    | None => se
    end
  else se.

(** One turn of the filling loop of DrawHistograms, and of the first loop
    of DrawGraphs. *)
Definition histo_step (e : HistoEntries) (h : Hit) : HistoEntries :=
  let x := TVector3.X (hit_pos h) in
  let y := TVector3.Y (hit_pos h) in
  let z := TVector3.Z (hit_pos h) in
  mkEntries
    (if drawn_on REST_HitType.XZ h then inXZ e ++ [(x, z)] else inXZ e)
    (if drawn_on REST_HitType.YZ h then inYZ e ++ [(y, z)] else inYZ e)
    (if drawn_on REST_HitType.XY h then inXY e ++ [(x, y)] else inXY e)
    (if drawn_on REST_HitType.X h then inX e ++ [x] else inX e)
    (if drawn_on REST_HitType.Y h then inY e ++ [y] else inY e)
    (if drawn_on REST_HitType.Z h then inZ e ++ [z] else inZ e).

Definition graph_step (s : list (R * R) * list (R * R) * list (R * R)) (h : Hit)
    : list (R * R) * list (R * R) * list (R * R) :=
  let x := TVector3.X (hit_pos h) in
  let y := TVector3.Y (hit_pos h) in
  let z := TVector3.Z (hit_pos h) in
  let '(xz, yz, xy) := s in
  (if drawn_on REST_HitType.XZ h then xz ++ [(x, z)] else xz,
   if drawn_on REST_HitType.YZ h then yz ++ [(y, z)] else yz,
   if drawn_on REST_HitType.XY h then xy ++ [(x, y)] else xy).

(** The coordinates of the hits that pass the test of a projection. *)
Definition drawn (T : REST_HitType.t) {B : Type} (coords : TVector3.t -> B)
    (l : list Hit) : list B :=
  map (fun h => coords (hit_pos h)) (filter (drawn_on T) l).

(** The largest margin that a closest-distance query can return: the
    radius for the wall of a cylinder, read as a length; the smaller half
    side for the wall of a prism; the length of the axis for the two end
    faces. *)
Definition margin (q : Query) (v : Volume) : R :=
  match q, v with
  | ClosestDistanceToWall, Cylinder _ _ radius => Rabs radius
  | ClosestDistanceToWall, Prism _ _ sizeX sizeY _ => Rmin (sizeX / 2) (sizeY / 2)
  | _, Cylinder x0 x1 _
  | _, Prism x0 x1 _ _ _ => TVector3.Mag (x1 -v x0)
  end.

(** The same with the radius as it is given. *)
Definition stated_margin (q : Query) (v : Volume) : R :=
  match q, v with
  | ClosestDistanceToWall, Cylinder _ _ radius => radius
  | _, _ => margin q v
  end.

(** The contract of the sentinel for a closest-distance query [q]: -1
    exactly when no hit is contained, and otherwise at most the margin. *)
Definition sentinel_contract (bound : Query -> Volume -> R)
    (q : Query) (v : Volume) (ev : TRestHitsEvent) : Prop :=
  exists (r : R) (n : nat),
    run_query q v ev = Some (Double_r r, ev) /\
    run_query CountInside v ev = Some (Int_r n, ev) /\
    (r = -1 <-> n = 0%nat) /\
    (n <> 0%nat -> r <= bound q v).

(** The queries whose result does not rest on a sum of doubles: any, all,
    count and the closest distances. *)
Definition order_free (q : Query) : bool :=
  match q with
  | EnergyInside | MeanPositionInside => false
  | _ => true
  end.

(** ** Sums in double precision *)

(** The sums over the hits in binary64, where every addition rounds and
    the order of the hits decides the result. *)
Module Double.
Import PrimFloat.
Local Open Scope float_scope.

Record Vector3 : Type := mkV { X : float; Y : float; Z : float }.

Definition sub (a b : Vector3) : Vector3 := mkV (X a - X b) (Y a - Y b) (Z a - Z b).
Definition Dot (a b : Vector3) : float := X a * X b + Y a * Y b + Z a * Z b.
Definition Mag2 (a : Vector3) : float := X a * X a + Y a * Y a + Z a * Z a.
Definition Mag (a : Vector3) : float := sqrt (Mag2 a).

Record Hit : Type := mkHit { pos : Vector3; energy : float }.

(** Modelled from the spec: the containment predicate of the cylinder, as
    [Hits.insideCylinder]; a zero-length axis makes l infinite or NaN, which
    fails the comparisons by itself. *)
Definition insideCylinder (P x0 x1 : Vector3) (radius : float) : bool :=
  let axis := sub x1 x0 in
  let L := Mag axis in
  let l := Dot axis (sub P x0) / L in
  let perp2 := Mag2 (sub P x0) - l * l in
  (0 <=? l) && (l <=? L) && (perp2 <=? radius * radius).

(** Modelled from the spec: the sum of the energies of the contained hits,
    in one pass over the collection. *)
Definition GetEnergyInCylinder (hits : list Hit) (x0 x1 : Vector3) (radius : float)
    : float :=
  fold_left (fun sum h =>
               if insideCylinder (pos h) x0 x1 radius then sum + energy h else sum)
            hits 0.

(** Modelled from the spec: the mean position of the contained hits,
    coordinate by coordinate, in one pass; the zero vector if none. *)
Definition GetMeanPositionInCylinder (hits : list Hit) (x0 x1 : Vector3)
    (radius : float) : Vector3 :=
  let '(sx, sy, sz, n) :=
    fold_left (fun '(sx, sy, sz, n) h =>
                 if insideCylinder (pos h) x0 x1 radius
                 then (sx + X (pos h), sy + Y (pos h), sz + Z (pos h), n + 1)
                 else (sx, sy, sz, n))
              hits (0, 0, 0, 0) in
  if n =? 0 then mkV 0 0 0 else mkV (sx / n) (sy / n) (sz / n).

(** The loop of CalculateTotalDepositedEnergy: [sum += GetEnergy(i)]. *)
Definition CalculateTotalDepositedEnergy (hits : list Hit) : float :=
  fold_left (fun sum h => sum + energy h) hits 0.

End Double.

(** ** Further member functions *)

(** *** A constructed event *)

(** The constructor sets the three caches to NULL; the hits start empty. *)
Definition constructed : TRestHitsEvent :=
  mkEvent (mkHits [] 0) None None None.

(** [AddHit] for each hit of a list, in order. *)
Fixpoint AddHits (l : list Hit) : M unit :=
  match l with
  | [] => ret tt
  | h :: l' =>
      AddHit (TVector3.X (hit_pos h)) (TVector3.Y (hit_pos h)) (TVector3.Z (hit_pos h))
             (hit_energy h) (hit_time h) (hit_type h) ;;
      AddHits l'
  end.

(** Between an event and the event after a hit [h] was added, the result
    of the query [q] on [v] stayed as it was if [h] is outside [v], and did
    not rise if a hit was contained before. *)
Definition never_raised (q : Query) (v : Volume) (h : Hit)
    (ev ev' : TRestHitsEvent) : Prop :=
  exists r r' : R,
    run_query q v ev = Some (Double_r r, ev) /\
    run_query q v ev' = Some (Double_r r', ev') /\
    (inside_volume v (hit_pos h) = false -> r' = r) /\
    (contained_in v ev <> [] -> r' <= r).

(** *** Boundaries *)

(** The conversion of a double to [Int_t]: the fraction is dropped, toward
    zero; outside the range of a 32-bit int the conversion has no defined
    result. *)
Definition truncate (r : R) : BinNums.Z :=
  if Rle_dec 0 r then Int_part r else (- Int_part (- r))%Z.

Definition to_Int_t (r : R) : option BinNums.Z :=
  let z := truncate r in
  if ((-2147483648 <=? z) && (z <=? 2147483647))%Z then Some z else None.

(** The event with the six members that SetBoundaries writes and
    DrawHistograms reads. *)
Record DrawnEvent : Type := mkDrawn {
  base : TRestHitsEvent;
  fMinX : R; fMaxX : R;
  fMinY : R; fMaxY : R;
  fMinZ : R; fMaxZ : R
}.

(** The six local variables of SetBoundaries. *)
Record Extent : Type := mkExtent {
  maxX : R; minX : R; maxZ : R; minZ : R; maxY : R; minY : R
}.

(** The loop of SetBoundaries, on its local variables. *)
Definition SetBoundaries_scan : M Extent :=
  N <- GetNumberOfHits ;;
  for_loop (fun nhit e =>
    x <- GetX nhit ;; y <- GetY nhit ;; z <- GetZ nhit ;;
    ret (mkExtent
      (if Rltb (maxX e) x then x else maxX e)
      (if Rltb x (minX e) then x else minX e)
      (if Rltb (maxZ e) z then z else maxZ e)
      (if Rltb z (minZ e) then z else minZ e)
      (if Rltb (maxY e) y then y else maxY e)
      (if Rltb y (minY e) then y else minY e)))
    0 N (mkExtent (-1e10) 1e10 (-1e10) 1e10 (-1e10) 1e10).

Definition SetBoundaries (this : DrawnEvent) : option (unit * DrawnEvent) :=
  match SetBoundaries_scan (base this) with
  | Some (e, ev) =>
      Some (tt, mkDrawn ev (minX e) (maxX e) (minY e) (maxY e) (minZ e) (maxZ e))
  | None => None
  end.

(** *** The axes of DrawHistograms *)

(** The arguments that a histogram constructor receives for one axis. *)
Record Axis : Type := mkAxis { nbins : BinNums.Z; xlow : R; xup : R }.

Record Histograms : Type := mkHistograms {
  fXYHisto : Axis * Axis;
  fXZHisto : Axis * Axis;
  fYZHisto : Axis * Axis;
  fXHisto : Axis;
  fYHisto : Axis;
  fZHisto : Axis
}.

(** The numbers of bins and the histograms that DrawHistograms creates from
    the boundaries and the pitch.  A zero pitch makes the quotients
    infinite or undefined, which no [Int_t] holds. *)
Definition DrawHistograms_axes (pitch : R) (this : DrawnEvent) : option Histograms :=
  if Reqb pitch 0 then None else
  match to_Int_t ((fMaxX this - fMinX this + 20) / pitch),
        to_Int_t ((fMaxY this - fMinY this + 20) / pitch),
        to_Int_t ((fMaxZ this - fMinZ this + 20) * 3 / pitch) with
  | Some nBinsX, Some nBinsY, Some nBinsZ =>
      let ax := mkAxis nBinsX (fMinX this - 10) (fMinX this + pitch * IZR nBinsX) in
      let ay := mkAxis nBinsY (fMinY this - 10) (fMinY this + pitch * IZR nBinsY) in
      let az := mkAxis nBinsZ (fMinZ this - 10)
                       (fMinZ this + (pitch / 3) * IZR nBinsZ) in
      Some (mkHistograms (ax, ay) (ax, az) (ay, az) ax ay
              (mkAxis nBinsZ (fMinZ this - 10) (fMinZ this + pitch * IZR nBinsZ)))
  | _, _, _ => None
  end.

(** One turn of the loop of SetBoundaries. *)
Definition extent_step (e : Extent) (h : Hit) : Extent :=
  let x := TVector3.X (hit_pos h) in
  let y := TVector3.Y (hit_pos h) in
  let z := TVector3.Z (hit_pos h) in
  mkExtent
    (if Rltb (maxX e) x then x else maxX e)
    (if Rltb x (minX e) then x else minX e)
    (if Rltb (maxZ e) z then z else maxZ e)
    (if Rltb z (minZ e) then z else minZ e)
    (if Rltb (maxY e) y then y else maxY e)
    (if Rltb y (minY e) then y else minY e).

(** [m] is the maximum of the values of [l]. *)
Definition is_max_of (m : R) (l : list R) : Prop :=
  In m l /\ forall x, In x l -> x <= m.

(** A value falls into the range of an axis: at or above the lower edge and
    below the upper edge. *)
Definition in_axis (c : R) (a : Axis) : Prop := xlow a <= c < xup a.

(** *** The arrays of DrawGraph2D *)

(** The six vectors that the loop of DrawGraph2D fills, [for (auto hit :
    fHits)] going through the hits in their order. *)
Record Graph2DData : Type := mkGraph2D {
  _xzx : list R; _xzz : list R; _xze : list R;
  _yzy : list R; _yzz : list R; _yze : list R
}.

Definition DrawGraph2D_data : M Graph2DData :=
  N <- GetNumberOfHits ;;
  for_loop (fun n d =>
    hit <- GetHit n ;;
    let d :=
      if REST_HitType.eqb (hit_type hit) REST_HitType.XZ then
        mkGraph2D (_xzx d ++ [TVector3.X (hit_pos hit)])
                  (_xzz d ++ [TVector3.Z (hit_pos hit)])
                  (_xze d ++ [hit_energy hit])
                  (_yzy d) (_yzz d) (_yze d)
      else d in
    let d :=
      if REST_HitType.eqb (hit_type hit) REST_HitType.YZ then
        mkGraph2D (_xzx d) (_xzz d) (_xze d)
                  (_yzy d ++ [TVector3.Y (hit_pos hit)])
                  (_yzz d ++ [TVector3.Z (hit_pos hit)])
                  (_yze d ++ [hit_energy hit])
      else d in
    ret d) 0 N (mkGraph2D [] [] [] [] [] []).

(** One turn of the loop of DrawGraph2D. *)
Definition graph2d_step (d : Graph2DData) (hit : Hit) : Graph2DData :=
  let d :=
    if REST_HitType.eqb (hit_type hit) REST_HitType.XZ then
      mkGraph2D (_xzx d ++ [TVector3.X (hit_pos hit)])
                (_xzz d ++ [TVector3.Z (hit_pos hit)])
                (_xze d ++ [hit_energy hit])
                (_yzy d) (_yzz d) (_yze d)
    else d in
  if REST_HitType.eqb (hit_type hit) REST_HitType.YZ then
    mkGraph2D (_xzx d) (_xzz d) (_xze d)
              (_yzy d ++ [TVector3.Y (hit_pos hit)])
              (_yzz d ++ [TVector3.Z (hit_pos hit)])
              (_yze d ++ [hit_energy hit])
  else d.

(** *** Shuffle *)

Section ShuffleModel.

(** [fHits.SwapHits(i, j)] belongs to TRestHits and is taken as it comes;
    [Uniform01 k] is the k-th value that [gRandom->Uniform(0, 1)] returns. *)
Variable SwapHits : TRestHits -> BinNums.Z -> BinNums.Z -> option TRestHits.
Variable Uniform01 : nat -> R.

(** The loop of Shuffle: [drawn] counts the random numbers taken so far. *)
Fixpoint Shuffle_loop (count : nat) (nHits : nat) (drawn : nat) (hs : TRestHits)
    : option (nat * TRestHits) :=
  match count with
  | O => Some (drawn, hs)
  | Datatypes.S count' =>
      match to_Int_t (INR nHits * Uniform01 drawn),
            to_Int_t (INR nHits * Uniform01 (Datatypes.S drawn)) with
      | Some hit1, Some hit2 =>
          match SwapHits hs hit1 hit2 with
          | Some hs' => Shuffle_loop count' nHits (Datatypes.S (Datatypes.S drawn)) hs'
          | None => None
          end
      | _, _ => None
      end
  end.

(** Shuffle, from the number of random values already taken to the number
    taken after the call. *)
Definition Shuffle (NLoop : BinNums.Z) (drawn : nat) : M nat :=
  nHits <- GetNumberOfHits ;;
  if Nat.leb 2 nHits then
    this <- get ;;
    match Shuffle_loop (Z.to_nat NLoop) nHits drawn (fHits this) with
    | Some (drawn', hs') =>
        put (mkEvent hs' (fXZHits this) (fYZHits this) (fXYZHits this)) ;;
        ret drawn'
    | None => fail
    end
  else ret drawn.

End ShuffleModel.

(** A container operation that exchanges the hits at two positions and
    fails outside the collection. *)
Definition set_nth {A} (l : list A) (n : nat) (a : A) : list A :=
  firstn n l ++ a :: skipn (Datatypes.S n) l.

Definition exchange (hs : TRestHits) (i j : BinNums.Z) : option TRestHits :=
  if ((i <? 0) || (j <? 0))%Z then None else
  match nth_error (hits hs) (Z.to_nat i), nth_error (hits hs) (Z.to_nat j) with
  | Some a, Some b =>
      Some (mkHits (set_nth (set_nth (hits hs) (Z.to_nat i) b) (Z.to_nat j) a)
                   (fTotEnergy hs))
  | _, _ => None
  end.

(** *** The options of DrawEvent *)

Module DrawOptions.
Import Ascii String.

(** A [std::string], character by character. *)
Definition std_string : Type := list ascii.

(** [s.find(c, pos)] for a one-character needle: the first position at or
    after [pos] that holds [c]; [None] is [npos]. *)
Fixpoint find (c : ascii) (s : std_string) (pos : nat) : option nat :=
  match s with
  | [] => None
  | a :: s' =>
      match pos with
      | O => if Ascii.eqb a c then Some O else option_map Datatypes.S (find c s' O)
      | Datatypes.S pos' => option_map Datatypes.S (find c s' pos')
      end
  end.

(** [s.replace(pos, 1, c)] on a position inside the string. *)
Definition replace_1 (s : std_string) (pos : nat) (c : ascii) : std_string :=
  set_nth s pos c.

(** The loop that turns the commas of histOption into colons:
    [pos = 0; while ((pos = histOption.find(",", pos)) != npos)
    { histOption.replace(pos, 1, ":"); pos = pos + 1; }].  [fuel] bounds
    the number of turns; [None] when it runs out. *)
Fixpoint commas_to_colons (fuel : nat) (histOption : std_string) (pos : nat)
    : option std_string :=
  match fuel with
  | O => None
  | Datatypes.S fuel' =>
      match find ","%char histOption pos with
      | Some pos' =>
          commas_to_colons fuel' (replace_1 histOption pos' ":"%char) (pos' + 1)
      | None => Some histOption
      end
  end.

(** What the loop is meant to do to one character. *)
Definition colon_for_comma (a : ascii) : ascii :=
  if Ascii.eqb a ","%char then ":"%char else a.

(** The head of DrawEvent on the list of options that GetOptions returns:
    the number of calls of PrintEvent, the list after the erasure of "print"
    and the default, and the two arguments of [fPad->Divide]. *)
Definition DrawEvent_options (optList : list string)
    : nat * list string * (BinNums.Z * BinNums.Z) :=
  let prints :=
    Datatypes.length (filter (fun o => String.eqb o "print") optList) in
  let optList := filter (fun o => negb (String.eqb o "print")) optList in
  let optList :=
    if Nat.eqb (Datatypes.length optList) 0
    then (optList ++ ["graph2d"%string])%list
    else optList in
  (prints, optList, (3, 2 * Z.of_nat (Datatypes.length optList))%Z).

End DrawOptions.

(** *** What a hit type determines *)

(** The coordinates that a hit type declares as measured. *)
Definition has_x (ty : REST_HitType.t) : bool :=
  match ty with
  | REST_HitType.X | REST_HitType.XY | REST_HitType.XZ | REST_HitType.XYZ => true
  | _ => false
  end.

Definition has_y (ty : REST_HitType.t) : bool :=
  match ty with
  | REST_HitType.Y | REST_HitType.XY | REST_HitType.YZ | REST_HitType.XYZ => true
  | _ => false
  end.

Definition has_z (ty : REST_HitType.t) : bool :=
  match ty with
  | REST_HitType.Z | REST_HitType.XZ | REST_HitType.YZ | REST_HitType.XYZ => true
  | _ => false
  end.

(** * Properties *)

(** ** Comparisons *)

Lemma Rltb_true (x y : R) : x < y -> Rltb x y = true.
Proof. intros H. unfold Rltb. destruct (Rlt_dec x y); [reflexivity | contradiction]. Qed.

Lemma Rltb_false (x y : R) : y <= x -> Rltb x y = false.
Proof. intros H. unfold Rltb. destruct (Rlt_dec x y); [lra | reflexivity]. Qed.

Lemma Rleb_true (x y : R) : x <= y -> Rleb x y = true.
Proof. intros H. unfold Rleb. destruct (Rle_dec x y); [reflexivity | contradiction]. Qed.

Lemma Rleb_false (x y : R) : y < x -> Rleb x y = false.
Proof. intros H. unfold Rleb. destruct (Rle_dec x y); [lra | reflexivity]. Qed.

Lemma Rleb_le (x y : R) : Rleb x y = true -> x <= y.
Proof. unfold Rleb. destruct (Rle_dec x y); [trivial | discriminate]. Qed.

Lemma Reqb_true (x y : R) : x = y -> Reqb x y = true.
Proof. intros H. unfold Reqb. destruct (Req_dec_T x y); [reflexivity | contradiction]. Qed.

Lemma Reqb_false (x y : R) : x <> y -> Reqb x y = false.
Proof. intros H. unfold Reqb. destruct (Req_dec_T x y); [contradiction | reflexivity]. Qed.

Lemma update_min (d hitDistance : R) :
  (if Rltb d hitDistance then d else hitDistance) = Rmin hitDistance d.
Proof.
  unfold Rltb, Rmin.
  destruct (Rlt_dec d hitDistance), (Rle_dec hitDistance d); lra.
Qed.

Lemma std_max_Rmax (a b : R) : std_max a b = Rmax a b.
Proof.
  unfold std_max, Rltb, Rmax.
  destruct (Rlt_dec a b), (Rle_dec a b); lra.
Qed.

Lemma std_min_Rmin (a b : R) : std_min a b = Rmin a b.
Proof.
  unfold std_min, Rltb, Rmin.
  destruct (Rlt_dec b a), (Rle_dec a b); lra.
Qed.

(** ** Loops over the hits *)

(** A loop whose body, at index [i], does to the loop variables and to the
    object what [g] does with hit [i], is a fold of [g] over the hits; [I]
    is what the body needs of the object and keeps. *)
Lemma for_loop_fold_from {S : Type} (body : nat -> S -> M S)
    (g : S * TRestHitsEvent -> Hit -> S * TRestHitsEvent)
    (I : TRestHitsEvent -> Prop) (hs : list Hit) :
  (forall i h s e, I e -> nth_error hs i = Some h ->
     body i s e = Some (g (s, e) h) /\ I (snd (g (s, e) h))) ->
  forall l2 l1 s e, hs = l1 ++ l2 -> I e ->
    for_loop body (length l1) (length l2) s e = Some (fold_left g l2 (s, e)).
Proof.
  intros Hbody. induction l2 as [| h l2 IH]; intros l1 s e Hhs HI.
  - reflexivity.
  - cbn [length for_loop fold_left]. unfold bind.
    assert (Hn : nth_error hs (length l1) = Some h).
    { subst hs. rewrite nth_error_app2 by lia. now rewrite Nat.sub_diag. }
    destruct (Hbody _ _ s e HI Hn) as [-> HI'].
    destruct (g (s, e) h) as [s' e'] eqn:Hg. cbn [snd] in HI'.
    replace (Datatypes.S (length l1)) with (length (l1 ++ [h]))
      by (rewrite length_app; cbn; lia).
    apply IH; [| exact HI'].
    subst hs. now rewrite <- app_assoc.
Qed.

Lemma for_loop_fold {S : Type} (body : nat -> S -> M S)
    (g : S * TRestHitsEvent -> Hit -> S * TRestHitsEvent)
    (I : TRestHitsEvent -> Prop) (hs : list Hit) :
  (forall i h s e, I e -> nth_error hs i = Some h ->
     body i s e = Some (g (s, e) h) /\ I (snd (g (s, e) h))) ->
  forall s e, I e ->
    for_loop body 0 (length hs) s e = Some (fold_left g hs (s, e)).
Proof.
  intros Hbody s e HI.
  exact (for_loop_fold_from body g I hs Hbody hs [] s e eq_refl HI).
Qed.

(** The same for a body that only reads the object. *)
Lemma for_loop_read {S : Type} (body : nat -> S -> M S) (g : S -> Hit -> S)
    (ev : TRestHitsEvent) :
  (forall i h s, nth_error (hits (fHits ev)) i = Some h ->
     body i s ev = Some (g s h, ev)) ->
  forall s,
    for_loop body 0 (length (hits (fHits ev))) s ev
    = Some (fold_left g (hits (fHits ev)) s, ev).
Proof.
  intros Hbody s.
  rewrite (for_loop_fold body (fun se h => (g (fst se) h, snd se))
             (fun e => e = ev) (hits (fHits ev))).
  - f_equal. generalize (hits (fHits ev)) s. clear.
    induction l as [| h l IH]; intros s; [reflexivity | apply IH].
  - intros i h s' e -> Hn. cbn. split; [now apply Hbody | reflexivity].
  - reflexivity.
Qed.

(** ** The running minimum *)

Section MinLoop.
Variable inside : Hit -> bool.
Variable dist : Hit -> R.

Lemma fold_min_step (hs : list Hit) (a : R) (k : nat) :
  fold_left (min_step inside dist) hs (a, k)
  = (fold_left Rmin (map dist (filter inside hs)) a,
     (k + length (filter inside hs))%nat).
Proof.
  revert a k. induction hs as [| h hs IH]; intros a k.
  - cbn. now rewrite Nat.add_0_r.
  - cbn [fold_left filter]. unfold min_step at 2.
    destruct (inside h).
    + cbn [fst snd map fold_left length]. rewrite IH, update_min.
      f_equal. lia.
    + apply IH.
Qed.

End MinLoop.

(** ** What each member function computes *)

Lemma bind_Some {A B} (c : M A) (k : A -> M B) (ev ev' : TRestHitsEvent) (a : A) :
  c ev = Some (a, ev') -> bind c k ev = k a ev'.
Proof. intros H. unfold bind. now rewrite H. Qed.

Lemma bind_Some_pair {A B} (c : M A) (k : A -> M B) (ev : TRestHitsEvent)
    (p : A * TRestHitsEvent) :
  c ev = Some p -> bind c k ev = k (fst p) (snd p).
Proof. intros H. unfold bind. rewrite H. now destruct p. Qed.

Lemma bind_None {A B} (c : M A) (k : A -> M B) (ev : TRestHitsEvent) :
  c ev = None -> bind c k ev = None.
Proof. intros H. unfold bind. now rewrite H. Qed.

Lemma fmap_Some {A B} (f : A -> B) (c : M A) (ev ev' : TRestHitsEvent) (a : A) :
  c ev = Some (a, ev') -> fmap f c ev = Some (f a, ev').
Proof. intros H. unfold fmap. now rewrite (bind_Some _ _ _ _ _ H). Qed.

Section Accessors.
Variable ev : TRestHitsEvent.

Lemma GetNumberOfHits_run :
  GetNumberOfHits ev = Some (length (hits (fHits ev)), ev).
Proof. reflexivity. Qed.

Section AtIndex.
Variables (n : nat) (h : Hit).
Hypothesis Hn : nth_error (hits (fHits ev)) n = Some h.

Lemma GetHit_run : GetHit n ev = Some (h, ev).
Proof.
  unfold GetHit. rewrite (bind_Some _ _ ev ev ev eq_refl).
  unfold Hits.GetHit. now rewrite Hn.
Qed.

Lemma GetPosition_run : GetPosition n ev = Some (hit_pos h, ev).
Proof. unfold GetPosition. now rewrite (bind_Some _ _ _ _ _ GetHit_run). Qed.

Lemma GetX_run : GetX n ev = Some (TVector3.X (hit_pos h), ev).
Proof. unfold GetX. now rewrite (bind_Some _ _ _ _ _ GetHit_run). Qed.

Lemma GetY_run : GetY n ev = Some (TVector3.Y (hit_pos h), ev).
Proof. unfold GetY. now rewrite (bind_Some _ _ _ _ _ GetHit_run). Qed.

Lemma GetZ_run : GetZ n ev = Some (TVector3.Z (hit_pos h), ev).
Proof. unfold GetZ. now rewrite (bind_Some _ _ _ _ _ GetHit_run). Qed.

Lemma GetEnergy_run : GetEnergy n ev = Some (hit_energy h, ev).
Proof. unfold GetEnergy. now rewrite (bind_Some _ _ _ _ _ GetHit_run). Qed.

Lemma GetTime_run : GetTime n ev = Some (hit_time h, ev).
Proof. unfold GetTime. now rewrite (bind_Some _ _ _ _ _ GetHit_run). Qed.

Lemma GetType_run : GetType n ev = Some (hit_type h, ev).
Proof. unfold GetType. now rewrite (bind_Some _ _ _ _ _ GetHit_run). Qed.

Lemma isHitNInsideCylinder_run (x0 x1 : TVector3.t) (radius : R) :
  fHits_isHitNInsideCylinder n x0 x1 radius ev
  = Some (Hits.insideCylinder (hit_pos h) x0 x1 radius, ev).
Proof.
  unfold fHits_isHitNInsideCylinder. rewrite (bind_Some _ _ ev ev ev eq_refl).
  unfold Hits.isHitNInsideCylinder, Hits.GetHit. now rewrite Hn.
Qed.

Lemma isHitNInsidePrism_run (x0 x1 : TVector3.t) (sizeX sizeY theta : R) :
  fHits_isHitNInsidePrism n x0 x1 sizeX sizeY theta ev
  = Some (Hits.insidePrism (hit_pos h) x0 x1 sizeX sizeY theta, ev).
Proof.
  unfold fHits_isHitNInsidePrism. rewrite (bind_Some _ _ ev ev ev eq_refl).
  unfold Hits.isHitNInsidePrism, Hits.GetHit. now rewrite Hn.
Qed.

End AtIndex.
End Accessors.

(** One call of an accessor at the head of a member function. *)
Ltac call :=
  erewrite bind_Some by
    first [ apply GetNumberOfHits_run
          | apply GetPosition_run; eassumption
          | apply GetX_run; eassumption
          | apply GetY_run; eassumption
          | apply GetZ_run; eassumption
          | apply GetEnergy_run; eassumption
          | apply GetTime_run; eassumption
          | apply GetType_run; eassumption
          | apply isHitNInsideCylinder_run; eassumption
          | apply isHitNInsidePrism_run; eassumption
          | reflexivity ].

Section ClosestLoops.
Variable ev : TRestHitsEvent.

(** The six loops differ in the containment test, the distance of a
    contained hit, the start of the running minimum and what is done to it
    at the end. *)
Lemma closest_loop_run (inside : TVector3.t -> bool) (dist : TVector3.t -> R)
    (body : nat -> R * nat -> M (R * nat)) (init : R) :
  (forall i h s, nth_error (hits (fHits ev)) i = Some h ->
     body i s ev
     = Some (min_step (fun h => inside (hit_pos h)) (fun h => dist (hit_pos h)) s h, ev)) ->
  for_loop body 0 (length (hits (fHits ev))) (init, 0%nat) ev
  = Some ((fold_left Rmin (map (fun h => dist (hit_pos h))
                               (Hits.contained inside (hits (fHits ev)))) init,
           length (Hits.contained inside (hits (fHits ev)))), ev).
Proof.
  intros Hbody.
  rewrite (for_loop_read body _ ev Hbody).
  now rewrite fold_min_step.
Qed.

Ltac closest_run inside dist :=
  call;
  erewrite bind_Some;
  [| apply (closest_loop_run inside dist);
     let i := fresh "i" in let h := fresh "h" in
     let hd := fresh "hd" in let nh := fresh "nh" in let Hn := fresh "Hn" in
     intros i h [hd nh] Hn; call; unfold min_step;
     match goal with
     | |- context [if ?b then _ else _] => destruct b; [| reflexivity]
     end;
     repeat call; reflexivity ];
  unfold contained_in, inside_volume;
  destruct (Hits.contained _ (hits (fHits ev))); reflexivity.

Lemma CylinderWall_run (x0 x1 : TVector3.t) (radius : R) :
  GetClosestHitInsideDistanceToCylinderWall x0 x1 radius ev
  = Some (closest_of sqrt (radius * radius)
            (map (fun h => wall_d2 x0 x1 radius (hit_pos h))
                 (contained_in (Cylinder x0 x1 radius) ev)), ev).
Proof.
  unfold GetClosestHitInsideDistanceToCylinderWall.
  closest_run (fun P => Hits.insideCylinder P x0 x1 radius) (wall_d2 x0 x1 radius).
Qed.

Lemma CylinderTop_run (x0 x1 : TVector3.t) (radius : R) :
  GetClosestHitInsideDistanceToCylinderTop x0 x1 radius ev
  = Some (closest_of (fun d => d) (TVector3.Mag (x1 -v x0))
            (map (fun h => top_d x0 x1 (hit_pos h))
                 (contained_in (Cylinder x0 x1 radius) ev)), ev).
Proof.
  unfold GetClosestHitInsideDistanceToCylinderTop.
  closest_run (fun P => Hits.insideCylinder P x0 x1 radius) (top_d x0 x1).
Qed.

Lemma CylinderBottom_run (x0 x1 : TVector3.t) (radius : R) :
  GetClosestHitInsideDistanceToCylinderBottom x0 x1 radius ev
  = Some (closest_of (fun d => d) (TVector3.Mag (x1 -v x0))
            (map (fun h => axial x0 x1 (hit_pos h))
                 (contained_in (Cylinder x0 x1 radius) ev)), ev).
Proof.
  unfold GetClosestHitInsideDistanceToCylinderBottom.
  closest_run (fun P => Hits.insideCylinder P x0 x1 radius) (axial x0 x1).
Qed.

Lemma PrismWall_run (x0 x1 : TVector3.t) (sizeX sizeY theta : R) :
  GetClosestHitInsideDistanceToPrismWall x0 x1 sizeX sizeY theta ev
  = Some (closest_of (fun d => d) (std_max (sizeX / 2) (sizeY / 2))
            (map (fun h => prism_wall_d x0 sizeX sizeY (hit_pos h))
                 (contained_in (Prism x0 x1 sizeX sizeY theta) ev)), ev).
Proof.
  unfold GetClosestHitInsideDistanceToPrismWall.
  closest_run (fun P => Hits.insidePrism P x0 x1 sizeX sizeY theta)
              (prism_wall_d x0 sizeX sizeY).
Qed.

Lemma PrismTop_run (x0 x1 : TVector3.t) (sizeX sizeY theta : R) :
  GetClosestHitInsideDistanceToPrismTop x0 x1 sizeX sizeY theta ev
  = Some (closest_of (fun d => d) (TVector3.Mag (x1 -v x0))
            (map (fun h => top_d x0 x1 (hit_pos h))
                 (contained_in (Prism x0 x1 sizeX sizeY theta) ev)), ev).
Proof.
  unfold GetClosestHitInsideDistanceToPrismTop.
  closest_run (fun P => Hits.insidePrism P x0 x1 sizeX sizeY theta) (top_d x0 x1).
Qed.

Lemma PrismBottom_run (x0 x1 : TVector3.t) (sizeX sizeY theta : R) :
  GetClosestHitInsideDistanceToPrismBottom x0 x1 sizeX sizeY theta ev
  = Some (closest_of (fun d => d) (TVector3.Mag (x1 -v x0))
            (map (fun h => axial x0 x1 (hit_pos h))
                 (contained_in (Prism x0 x1 sizeX sizeY theta) ev)), ev).
Proof.
  unfold GetClosestHitInsideDistanceToPrismBottom.
  closest_run (fun P => Hits.insidePrism P x0 x1 sizeX sizeY theta) (axial x0 x1).
Qed.

End ClosestLoops.

(** ** Geometry *)

Lemma Mag2_nonneg (a : TVector3.t) : 0 <= TVector3.Mag2 a.
Proof. unfold TVector3.Mag2. nra. Qed.

Lemma Mag_nonneg (a : TVector3.t) : 0 <= TVector3.Mag a.
Proof. apply sqrt_pos. Qed.

Lemma Mag_sqr (a : TVector3.t) : TVector3.Mag a * TVector3.Mag a = TVector3.Mag2 a.
Proof. apply sqrt_sqrt, Mag2_nonneg. Qed.

(** Cauchy-Schwarz, through the identity of Lagrange. *)
Lemma Dot_sqr_le (a b : TVector3.t) :
  TVector3.Dot a b * TVector3.Dot a b <= TVector3.Mag2 a * TVector3.Mag2 b.
Proof.
  destruct a as [a1 a2 a3], b as [b1 b2 b3].
  unfold TVector3.Dot, TVector3.Mag2. cbn.
  assert (H1 := Rle_0_sqr (a1 * b2 - a2 * b1)).
  assert (H2 := Rle_0_sqr (a1 * b3 - a3 * b1)).
  assert (H3 := Rle_0_sqr (a2 * b3 - a3 * b2)).
  unfold Rsqr in *. nra.
Qed.

(** The axial coordinate is never longer than the displacement. *)
Lemma axial_sqr_le (x0 x1 P : TVector3.t) :
  axial x0 x1 P * axial x0 x1 P <= TVector3.Mag2 (P -v x0).
Proof.
  unfold axial.
  set (a := x1 -v x0). set (v := P -v x0).
  destruct (Req_dec_T (TVector3.Mag a) 0) as [H0 | Hpos].
  - rewrite H0. unfold Rdiv. rewrite Rinv_0, Rmult_0_r, Rmult_0_r.
    apply Mag2_nonneg.
  - assert (HL := Mag_nonneg a). assert (Hsq := Mag_sqr a).
    assert (Hcs := Dot_sqr_le a v).
    set (L := TVector3.Mag a) in *.
    replace (TVector3.Dot a v / L * (TVector3.Dot a v / L))
      with (TVector3.Dot a v * TVector3.Dot a v / (L * L)) by (field; exact Hpos).
    assert (HLL : 0 < L * L) by nra.
    apply (Rmult_le_reg_r (L * L)); [exact HLL |].
    unfold Rdiv. rewrite Rmult_assoc, Rinv_l by lra.
    rewrite Hsq. lra.
Qed.

Lemma wall_d2_le (x0 x1 : TVector3.t) (radius : R) (P : TVector3.t) :
  wall_d2 x0 x1 radius P <= radius * radius.
Proof. unfold wall_d2. assert (H := axial_sqr_le x0 x1 P). lra. Qed.

Lemma insideCylinder_spec (P x0 x1 : TVector3.t) (radius : R) :
  Hits.insideCylinder P x0 x1 radius = true ->
  TVector3.Mag (x1 -v x0) <> 0 /\
  0 <= axial x0 x1 P <= TVector3.Mag (x1 -v x0) /\
  TVector3.Mag2 (P -v x0) - axial x0 x1 P * axial x0 x1 P <= radius * radius.
Proof.
  unfold Hits.insideCylinder. cbv zeta. fold (axial x0 x1 P).
  rewrite !andb_true_iff, negb_true_iff.
  intros [[[H0 H1] H2] H3].
  apply Rleb_le in H1, H2, H3.
  repeat split; try assumption.
  intros E. now rewrite (Reqb_true _ _ E) in H0.
Qed.

Lemma insidePrism_spec (P x0 x1 : TVector3.t) (sizeX sizeY theta : R) :
  Hits.insidePrism P x0 x1 sizeX sizeY theta = true ->
  TVector3.Mag (x1 -v x0) <> 0 /\
  0 <= axial x0 x1 P <= TVector3.Mag (x1 -v x0) /\
  Rabs (TVector3.X (Hits.local P x0 theta)) <= sizeX / 2 /\
  Rabs (TVector3.Y (Hits.local P x0 theta)) <= sizeY / 2.
Proof.
  unfold Hits.insidePrism. cbv zeta. fold (axial x0 x1 P).
  rewrite !andb_true_iff, negb_true_iff.
  intros [[[[H0 H1] H2] H3] H4].
  apply Rleb_le in H1, H2, H3, H4.
  repeat split; try assumption.
  intros E. now rewrite (Reqb_true _ _ E) in H0.
Qed.

(** Every contained hit is between the two end faces. *)
Lemma inside_volume_axial (v : Volume) (P : TVector3.t) :
  inside_volume v P = true ->
  match v with
  | Cylinder x0 x1 _ | Prism x0 x1 _ _ _ =>
      0 <= axial x0 x1 P <= TVector3.Mag (x1 -v x0)
  end.
Proof.
  destruct v; cbn; intros H.
  - now apply insideCylinder_spec in H.
  - now apply insidePrism_spec in H.
Qed.

Lemma contained_in_inside (v : Volume) (ev : TRestHitsEvent) (h : Hit) :
  In h (contained_in v ev) -> inside_volume v (hit_pos h) = true.
Proof.
  unfold contained_in, Hits.contained. rewrite filter_In. tauto.
Qed.

(** ** Minima of lists *)

Lemma fold_Rmin_le_init (l : list R) (a : R) : fold_left Rmin l a <= a.
Proof.
  revert a. induction l as [| x l IH]; intros a; cbn.
  - lra.
  - eapply Rle_trans; [apply IH | apply Rmin_l].
Qed.

Lemma fold_Rmin_le_elt (l : list R) (a x : R) : In x l -> fold_left Rmin l a <= x.
Proof.
  revert a. induction l as [| y l IH]; intros a; cbn; [tauto |].
  intros [-> | Hin].
  - eapply Rle_trans; [apply fold_Rmin_le_init | apply Rmin_r].
  - now apply IH.
Qed.

Lemma fold_Rmin_In (l : list R) (a : R) :
  fold_left Rmin l a = a \/ In (fold_left Rmin l a) l.
Proof.
  revert a. induction l as [| y l IH]; intros a; cbn; [now left |].
  destruct (IH (Rmin a y)) as [E | Hin]; [| now right; right].
  rewrite E. unfold Rmin. destruct (Rle_dec a y); [now left | now right; left].
Qed.

(** When every value is at most [a], the running minimum started at [a] is
    the minimum of the values. *)
Lemma fold_Rmin_is_min (l : list R) (a : R) :
  l <> [] -> (forall x, In x l -> x <= a) -> is_min_of (fold_left Rmin l a) l.
Proof.
  intros Hne Hle. split; [| intros x; apply fold_Rmin_le_elt].
  destruct (fold_Rmin_In l a) as [E | Hin]; [| exact Hin].
  destruct l as [| y l]; [contradiction |].
  assert (Hy : fold_left Rmin (y :: l) a <= y) by (apply fold_Rmin_le_elt; now left).
  assert (Hya : y <= a) by (apply Hle; now left).
  destruct (fold_Rmin_In l (Rmin a y)) as [E' | Hin'].
  - cbn. rewrite E'. left. unfold Rmin. destruct (Rle_dec a y); lra.
  - now right.
Qed.

Lemma is_min_of_map_sqrt (m : R) (l : list R) :
  is_min_of m l -> is_min_of (sqrt m) (map sqrt l).
Proof.
  intros [Hin Hle]. split.
  - now apply in_map.
  - intros x Hx. apply in_map_iff in Hx as [y [<- Hy]].
    apply sqrt_le_1_alt. now apply Hle.
Qed.

Lemma fold_Rmin_perm (l l' : list R) :
  Permutation l l' -> forall a, fold_left Rmin l a = fold_left Rmin l' a.
Proof.
  induction 1 as [| x l l' _ IH | x y l | l l' l'' _ IH1 _ IH2]; intros a; cbn.
  - reflexivity.
  - apply IH.
  - apply (f_equal (fold_left Rmin l)).
    rewrite <- !Rmin_assoc. f_equal. apply Rmin_comm.
  - now rewrite IH1.
Qed.

Lemma closest_of_map_cons {A} (post : R -> R) (init : R) (f : A -> R)
    (h : A) (c : list A) :
  closest_of post init (map f (h :: c))
  = post (fold_left Rmin (map f (h :: c)) init).
Proof. reflexivity. Qed.

Lemma closest_of_nil (post : R -> R) (init : R) : closest_of post init [] = -1.
Proof. reflexivity. Qed.

(** ** The closest-distance functions of the cylinder *)

(** C1: for every hit collection and every cylinder (x0, x1, radius),
    GetClosestHitInsideDistanceToCylinderWall returns -1 when no hit is
    contained, and otherwise the minimum, over the contained hits, of
    sqrt(radius^2 - |P - x0|^2 + l^2) with l = axis.(P - x0)/L; the value is
    the square root of the running minimum of the squares, which starts at
    radius^2.  The call leaves the event as it was. *)
Theorem cylinder_wall_is_min_of_contained
    (ev : TRestHitsEvent) (x0 x1 : TVector3.t) (radius : R) :
  let c := contained_in (Cylinder x0 x1 radius) ev in
  exists r : R,
    GetClosestHitInsideDistanceToCylinderWall x0 x1 radius ev = Some (r, ev) /\
    match c with
    | [] => r = -1
    | _ :: _ =>
        r = sqrt (fold_left Rmin
                    (map (fun h => wall_d2 x0 x1 radius (hit_pos h)) c)
                    (radius * radius)) /\
        is_min_of r (map (fun h => sqrt (wall_d2 x0 x1 radius (hit_pos h))) c)
    end.
Proof.
  intros c. eexists. split; [apply CylinderWall_run |].
  fold c. destruct c as [| h c'] eqn:Hc; [reflexivity |].
  split; [reflexivity |].
  rewrite closest_of_map_cons.
  rewrite <- (map_map (fun h => wall_d2 x0 x1 radius (hit_pos h)) sqrt (h :: c')).
  apply is_min_of_map_sqrt, fold_Rmin_is_min.
  - discriminate.
  - intros x Hx. apply in_map_iff in Hx as [h' [<- _]]. apply wall_d2_le.
Qed.

(** C5: for every hit collection and every cylinder of axis length L,
    GetClosestHitInsideDistanceToCylinderTop returns the minimum over the
    contained hits of L - l and GetClosestHitInsideDistanceToCylinderBottom
    the minimum over the contained hits of l, l being the signed axial
    coordinate of the hit; both return -1 when no hit is contained. *)
Theorem cylinder_top_bottom_are_min_of_contained
    (ev : TRestHitsEvent) (x0 x1 : TVector3.t) (radius : R) :
  let c := contained_in (Cylinder x0 x1 radius) ev in
  let L := TVector3.Mag (x1 -v x0) in
  exists top bottom : R,
    GetClosestHitInsideDistanceToCylinderTop x0 x1 radius ev = Some (top, ev) /\
    GetClosestHitInsideDistanceToCylinderBottom x0 x1 radius ev = Some (bottom, ev) /\
    match c with
    | [] => top = -1 /\ bottom = -1
    | _ :: _ =>
        is_min_of top (map (fun h => L - axial x0 x1 (hit_pos h)) c) /\
        is_min_of bottom (map (fun h => axial x0 x1 (hit_pos h)) c)
    end.
Proof.
  intros c L. do 2 eexists.
  split; [apply CylinderTop_run |]. split; [apply CylinderBottom_run |].
  fold c.
  assert (Hin : forall h, In h c ->
            0 <= axial x0 x1 (hit_pos h) <= TVector3.Mag (x1 -v x0)).
  { intros h Hh. apply contained_in_inside in Hh.
    exact (inside_volume_axial (Cylinder x0 x1 radius) _ Hh). }
  destruct c as [| h c'] eqn:Hc; [split; reflexivity |].
  rewrite !closest_of_map_cons. split.
  - apply (fold_Rmin_is_min (map (fun h => top_d x0 x1 (hit_pos h)) (h :: c'))).
    + discriminate.
    + intros x Hx. apply in_map_iff in Hx as [h' [<- Hh']].
      unfold top_d. specialize (Hin h' Hh'). lra.
  - apply (fold_Rmin_is_min (map (fun h => axial x0 x1 (hit_pos h)) (h :: c'))).
    + discriminate.
    + intros x Hx. apply in_map_iff in Hx as [h' [<- Hh']].
      specialize (Hin h' Hh'). lra.
Qed.

(** ** Volumes along the third axis *)

Section ZAxis.
Variable len : R.
Hypothesis len_pos : 0 < len.

Let x0 := TVector3.mk 0 0 0.
Let x1 := TVector3.mk 0 0 len.

Lemma zaxis_length : TVector3.Mag (x1 -v x0) = len.
Proof.
  unfold TVector3.Mag, TVector3.Mag2, TVector3.sub, x0, x1. cbn.
  replace ((0 - 0) * (0 - 0) + (0 - 0) * (0 - 0) + (len - 0) * (len - 0))
    with (len * len) by ring.
  apply sqrt_square. lra.
Qed.

Lemma zaxis_axial (x y z : R) : axial x0 x1 (TVector3.mk x y z) = z.
Proof.
  unfold axial. rewrite zaxis_length.
  unfold TVector3.Dot, TVector3.sub, x0, x1. cbn. field. lra.
Qed.

Lemma zaxis_insideCylinder (x y z radius : R) :
  Hits.insideCylinder (TVector3.mk x y z) x0 x1 radius
  = Rleb 0 z && Rleb z len && Rleb (x * x + y * y) (radius * radius).
Proof.
  unfold Hits.insideCylinder. cbv zeta.
  fold (axial x0 x1 (TVector3.mk x y z)).
  rewrite zaxis_axial, zaxis_length.
  rewrite (Reqb_false len 0) by lra. cbn [negb andb].
  do 2 f_equal.
  unfold TVector3.Mag2, TVector3.sub, x0. cbn. ring.
Qed.

Lemma zaxis_wall_d2 (x y z radius : R) :
  wall_d2 x0 x1 radius (TVector3.mk x y z) = radius * radius - (x * x + y * y).
Proof.
  unfold wall_d2. rewrite zaxis_axial.
  unfold TVector3.Mag2, TVector3.sub, x0. cbn. ring.
Qed.

Lemma zaxis_insidePrism (x y z sizeX sizeY theta : R) :
  Hits.insidePrism (TVector3.mk x y z) x0 x1 sizeX sizeY theta
  = Rleb 0 z && Rleb z len
    && Rleb (Rabs (cos theta * x - sin theta * y)) (sizeX / 2)
    && Rleb (Rabs (sin theta * x + cos theta * y)) (sizeY / 2).
Proof.
  unfold Hits.insidePrism. cbv zeta.
  fold (axial x0 x1 (TVector3.mk x y z)).
  rewrite zaxis_axial, zaxis_length.
  rewrite (Reqb_false len 0) by lra. cbn [negb andb].
  unfold Hits.local, TVector3.RotateZ, TVector3.sub, x0. cbn.
  now rewrite !Rminus_0_r.
Qed.

End ZAxis.

Lemma Rmin_same_or_above (a b : R) : a <= b -> Rmin a b = a.
Proof. intros H. unfold Rmin. destruct (Rle_dec a b); lra. Qed.

Lemma Rmin_below (a b : R) : b <= a -> Rmin a b = b.
Proof. intros H. unfold Rmin. destruct (Rle_dec a b); lra. Qed.

Lemma ten_pos : 0 < 10.
Proof. lra. Qed.

(** C6: for the cylinder x0 = (0,0,0), x1 = (0,0,10), radius = 5 and a
    collection of exactly the hits (0,0,5) of energy 2 and (10,0,5), the
    first hit is contained and the second is not,
    GetNumberOfHitsInsideCylinder returns 1, GetEnergyInCylinder returns 2,
    and the wall, top and bottom closest-distance functions return 5 each.
    Nothing else of the event matters: the times and types of the hits, the
    energy of the second one, the stored total, the caches. *)
Theorem cylinder_scenario
    (t1 e2 t2 tot : R) (ty1 ty2 : REST_HitType.t) (cxz cyz cxyz : option TRestHits) :
  let x0 := TVector3.mk 0 0 0 in
  let x1 := TVector3.mk 0 0 10 in
  let h1 := mkHit (TVector3.mk 0 0 5) 2 t1 ty1 in
  let h2 := mkHit (TVector3.mk 10 0 5) e2 t2 ty2 in
  let ev := mkEvent (mkHits [h1; h2] tot) cxz cyz cxyz in
  Hits.insideCylinder (hit_pos h1) x0 x1 5 = true /\
  Hits.insideCylinder (hit_pos h2) x0 x1 5 = false /\
  GetNumberOfHitsInsideCylinder x0 x1 5 ev = Some (1%nat, ev) /\
  GetEnergyInCylinder x0 x1 5 ev = Some (2, ev) /\
  GetClosestHitInsideDistanceToCylinderWall x0 x1 5 ev = Some (5, ev) /\
  GetClosestHitInsideDistanceToCylinderTop x0 x1 5 ev = Some (5, ev) /\
  GetClosestHitInsideDistanceToCylinderBottom x0 x1 5 ev = Some (5, ev).
Proof.
  intros x0 x1 h1 h2 ev.
  assert (H1 : Hits.insideCylinder (hit_pos h1) x0 x1 5 = true).
  { cbn [hit_pos h1]. unfold x0, x1. rewrite (zaxis_insideCylinder 10 ten_pos).
    rewrite !Rleb_true by lra. reflexivity. }
  assert (H2 : Hits.insideCylinder (hit_pos h2) x0 x1 5 = false).
  { cbn [hit_pos h2]. unfold x0, x1. rewrite (zaxis_insideCylinder 10 ten_pos).
    rewrite (Rleb_false (10 * 10 + 0 * 0)) by lra. apply andb_false_r. }
  assert (Hc : contained_in (Cylinder x0 x1 5) ev = [h1]).
  { unfold contained_in, Hits.contained, inside_volume. cbn [ev fHits hits filter].
    now rewrite H1, H2. }
  split; [exact H1 |]. split; [exact H2 |].
  split; [| split; [| split; [| split]]].
  - unfold GetNumberOfHitsInsideCylinder. call.
    unfold Hits.GetNumberOfHitsInsideCylinder, Hits.countInside.
    fold (inside_volume (Cylinder x0 x1 5)). fold (contained_in (Cylinder x0 x1 5) ev).
    now rewrite Hc.
  - unfold GetEnergyInCylinder. call.
    unfold Hits.GetEnergyInCylinder, Hits.energyInside.
    fold (inside_volume (Cylinder x0 x1 5)). fold (contained_in (Cylinder x0 x1 5) ev).
    rewrite Hc. unfold ret. do 2 f_equal. unfold Hits.Rsum. cbn. ring.
  - rewrite CylinderWall_run, Hc. do 2 f_equal.
    cbn [map hit_pos h1]. unfold closest_of. cbn [fold_left].
    unfold x0, x1. rewrite (zaxis_wall_d2 10 ten_pos).
    rewrite Rmin_same_or_above by lra.
    apply sqrt_square. lra.
  - rewrite CylinderTop_run, Hc. do 2 f_equal.
    cbn [map hit_pos h1]. unfold closest_of, top_d. cbn [fold_left].
    unfold x0, x1. rewrite (zaxis_axial 10 ten_pos), (zaxis_length 10 ten_pos).
    rewrite Rmin_below by lra. lra.
  - rewrite CylinderBottom_run, Hc. do 2 f_equal.
    cbn [map hit_pos h1]. unfold closest_of. cbn [fold_left].
    unfold x0, x1. rewrite (zaxis_axial 10 ten_pos), (zaxis_length 10 ten_pos).
    rewrite Rmin_below by lra. reflexivity.
Qed.

(** ** Every query is a function of the hits *)

(** A query returns its value on the list of hits and leaves the event as
    it was. *)
Lemma run_query_value (q : Query) (v : Volume) (ev : TRestHitsEvent) :
  run_query q v ev = Some (query_value q v (hits (fHits ev)), ev).
Proof.
  destruct v as [x0 x1 radius | x0 x1 sizeX sizeY theta]; destruct q;
    cbn [run_query query_value closest_value]; apply fmap_Some.
  - unfold anyHitInsideCylinder. call.
    unfold Hits.GetNumberOfHitsInsideCylinder, Hits.countInside.
    destruct (Nat.ltb _ _); reflexivity.
  - unfold allHitsInsideCylinder. do 2 call.
    unfold Hits.GetNumberOfHitsInsideCylinder, Hits.countInside.
    destruct (Nat.eqb _ _); reflexivity.
  - reflexivity.
  - reflexivity.
  - reflexivity.
  - apply CylinderWall_run.
  - apply CylinderTop_run.
  - apply CylinderBottom_run.
  - unfold anyHitInsidePrism. call.
    unfold Hits.GetNumberOfHitsInsidePrism, Hits.countInside.
    destruct (Nat.ltb _ _); reflexivity.
  - unfold allHitsInsidePrism. do 2 call.
    unfold Hits.GetNumberOfHitsInsidePrism, Hits.countInside.
    destruct (Nat.eqb _ _); reflexivity.
  - reflexivity.
  - reflexivity.
  - reflexivity.
  - apply PrismWall_run.
  - apply PrismTop_run.
  - apply PrismBottom_run.
Qed.

Lemma run_queries_frame (qs : list (Query * Volume)) (ev : TRestHitsEvent) :
  run_queries qs ev = Some (tt, ev).
Proof.
  induction qs as [| [q v] qs IH]; [reflexivity |].
  cbn [run_queries]. now rewrite (bind_Some _ _ _ _ _ (run_query_value q v ev)).
Qed.

(** ** Any and all *)

(** C3, as the code has it: for every volume, on a non-empty collection
    allHitsInside* true implies anyHitInside* true; on an empty collection
    anyHitInside* returns false and allHitsInside* returns true, the number
    of contained hits being equal to the number of hits, both 0. *)
Theorem all_inside_implies_any_inside (v : Volume) (ev : TRestHitsEvent) :
  exists any all : bool,
    run_query AnyInside v ev = Some (Bool_r any, ev) /\
    run_query AllInside v ev = Some (Bool_r all, ev) /\
    match hits (fHits ev) with
    | [] => any = false /\ all = true
    | _ :: _ => all = true -> any = true
    end.
Proof.
  do 2 eexists. rewrite !run_query_value. cbn [query_value].
  split; [reflexivity |]. split; [reflexivity |].
  destruct (hits (fHits ev)) as [| h l] eqn:Hl.
  - split; reflexivity.
  - intros Hall. apply Nat.eqb_eq in Hall. rewrite Hall. reflexivity.
Qed.

(** C3 as stated fails: on the empty collection allHitsInsideCylinder and
    allHitsInsidePrism return true. *)
Lemma all_inside_empty_counterexample :
  let ev := mkEvent (mkHits [] 0) None None None in
  let x0 := TVector3.mk 0 0 0 in
  let x1 := TVector3.mk 0 0 10 in
  ~ (hits (fHits ev) = [] ->
     anyHitInsideCylinder x0 x1 5 ev = Some (false, ev) /\
     allHitsInsideCylinder x0 x1 5 ev = Some (false, ev)) /\
  ~ (hits (fHits ev) = [] ->
     anyHitInsidePrism x0 x1 2 2 0 ev = Some (false, ev) /\
     allHitsInsidePrism x0 x1 2 2 0 ev = Some (false, ev)).
Proof.
  cbv zeta. split; intros H; destruct (H eq_refl) as [_ Hall];
    cbv in Hall; discriminate Hall.
Qed.

(** ** The order of the hits *)

Lemma contained_perm (inside : TVector3.t -> bool) (l l' : list Hit) :
  Permutation l l' ->
  Permutation (Hits.contained inside l) (Hits.contained inside l').
Proof.
  unfold Hits.contained.
  induction 1 as [| h l l' _ IH | h1 h2 l | l l' l'' _ IH1 _ IH2]; cbn.
  - constructor.
  - destruct (inside (hit_pos h)); [now constructor | exact IH].
  - destruct (inside (hit_pos h1)), (inside (hit_pos h2));
      try apply Permutation_refl.
    apply perm_swap.
  - now transitivity (filter (fun h => inside (hit_pos h)) l').
Qed.

Lemma closest_of_perm (post : R -> R) (init : R) (ds ds' : list R) :
  Permutation ds ds' -> closest_of post init ds = closest_of post init ds'.
Proof.
  intros H. destruct ds as [| d ds], ds' as [| d' ds'].
  - reflexivity.
  - apply Permutation_nil in H. discriminate.
  - apply Permutation_sym, Permutation_nil in H. discriminate.
  - unfold closest_of. f_equal. now apply fold_Rmin_perm.
Qed.

Lemma closest_value_perm (q : Query) (v : Volume) (c c' : list Hit) :
  Permutation c c' -> closest_value q v c = closest_value q v c'.
Proof.
  intros H. destruct v, q; cbn [closest_value];
    apply closest_of_perm, Permutation_map, H.
Qed.

Lemma query_value_perm (q : Query) (v : Volume) (l l' : list Hit) :
  order_free q = true ->
  Permutation l l' -> query_value q v l = query_value q v l'.
Proof.
  intros Hq H. assert (Hc := contained_perm (inside_volume v) _ _ H).
  unfold query_value. cbv zeta. destruct q; try discriminate Hq.
  - now rewrite (Permutation_length Hc).
  - now rewrite (Permutation_length Hc), (Permutation_length H).
  - now rewrite (Permutation_length Hc).
  - now rewrite (closest_value_perm _ _ _ _ Hc).
  - now rewrite (closest_value_perm _ _ _ _ Hc).
  - now rewrite (closest_value_perm _ _ _ _ Hc).
Qed.

(** C7, as the code has it: for every hit collection, every permutation of
    it and every volume descriptor, the queries any, all, count and the
    three closest distances, on a cylinder and on a prism, return the same
    result on the permuted collection as on the original. *)
Theorem order_free_queries_ignore_the_order
    (q : Query) (v : Volume) (ev ev' : TRestHitsEvent) :
  order_free q = true ->
  Permutation (hits (fHits ev)) (hits (fHits ev')) ->
  exists r : Result,
    run_query q v ev = Some (r, ev) /\ run_query q v ev' = Some (r, ev').
Proof.
  intros Hq H. exists (query_value q v (hits (fHits ev))).
  rewrite !run_query_value. split; [reflexivity |].
  now rewrite (query_value_perm q v _ _ Hq H).
Qed.

Lemma order_free_queries_ignore_the_order_witness :
  let a := mkHit (TVector3.mk 0 0 5) 2 0 REST_HitType.XYZ in
  let b := mkHit (TVector3.mk 10 0 5) 3 1 REST_HitType.XZ in
  let ev := mkEvent (mkHits [a; b] 0) None None None in
  let ev' := mkEvent (mkHits [b; a] 0) None None None in
  let v := Cylinder (TVector3.mk 0 0 0) (TVector3.mk 0 0 10) 5 in
  order_free ClosestDistanceToWall = true /\
  Permutation (hits (fHits ev)) (hits (fHits ev')) /\
  exists r : Result,
    run_query ClosestDistanceToWall v ev = Some (r, ev) /\
    run_query ClosestDistanceToWall v ev' = Some (r, ev').
Proof.
  cbv zeta. split; [reflexivity |]. split.
  - cbn. apply perm_swap.
  - apply order_free_queries_ignore_the_order; [reflexivity |]. cbn. apply perm_swap.
Defined.

Section DoubleFacts.
Import PrimFloat Double.
Local Open Scope float_scope.

(** C7 as stated fails for the sums.  In the cylinder x0 = (0,0,0),
    x1 = (0,0,10) of radius 5, the three hits at x = 0.1, 0.2, 0.3 (y = 0,
    z = 5) with the energies 0.1, 0.2, 0.3 are all contained; taken in this
    order the energy sum is 0.6000000000000001 and in the reverse order
    0.6, and the mean x and the total deposited energy differ likewise. *)
Lemma sums_depend_on_the_order_counterexample :
  let x0 := mkV 0 0 0 in
  let x1 := mkV 0 0 10 in
  let a := mkHit (mkV 0x1.999999999999ap-4 0 5) 0x1.999999999999ap-4 in
  let b := mkHit (mkV 0x1.999999999999ap-3 0 5) 0x1.999999999999ap-3 in
  let c := mkHit (mkV 0x1.3333333333333p-2 0 5) 0x1.3333333333333p-2 in
  let l := [a; b; c] in
  let l' := [c; b; a] in
  Permutation l l' /\
  forallb (fun h => insideCylinder (pos h) x0 x1 5) l = true /\
  GetEnergyInCylinder l x0 x1 5 = 0x1.3333333333334p-1 /\
  GetEnergyInCylinder l' x0 x1 5 = 0x1.3333333333333p-1 /\
  (GetEnergyInCylinder l x0 x1 5 =? GetEnergyInCylinder l' x0 x1 5) = false /\
  (X (GetMeanPositionInCylinder l x0 x1 5)
   =? X (GetMeanPositionInCylinder l' x0 x1 5)) = false /\
  (CalculateTotalDepositedEnergy l =? CalculateTotalDepositedEnergy l') = false.
Proof.
  cbv zeta. split.
  - apply (Permutation_rev
             [mkHit (mkV 0x1.999999999999ap-4 0 5) 0x1.999999999999ap-4;
              mkHit (mkV 0x1.999999999999ap-3 0 5) 0x1.999999999999ap-3;
              mkHit (mkV 0x1.3333333333333p-2 0 5) 0x1.3333333333333p-2]).
  - repeat split; vm_compute; reflexivity.
Qed.

End DoubleFacts.

(** ** Queries leave the event alone *)

(** C8: no containment or aggregation query (any, all, count, energy, mean
    position, closest distances; cylinder and prism) modifies the hit
    collection, or anything else of the event, and the volume descriptor is
    passed by value; each returns a value fixed by the hits and the volume
    ([query_value]), so that events with equal hits give equal results
    whatever their other members hold, and a second call of the query gives
    the result of the first whatever queries ran in between. *)
Theorem queries_are_pure (q : Query) (v : Volume) (ev : TRestHitsEvent) :
  run_query q v ev = Some (query_value q v (hits (fHits ev)), ev) /\
  (forall ev' : TRestHitsEvent,
     hits (fHits ev') = hits (fHits ev) ->
     run_query q v ev' = Some (query_value q v (hits (fHits ev)), ev')) /\
  (forall between : list (Query * Volume),
     (r1 <- run_query q v ;; run_queries between ;; r2 <- run_query q v ;;
      ret (r1, r2)) ev
     = Some ((query_value q v (hits (fHits ev)),
              query_value q v (hits (fHits ev))), ev)).
Proof.
  split; [apply run_query_value |]. split.
  - intros ev' H. now rewrite run_query_value, H.
  - intros between.
    rewrite (bind_Some _ _ _ _ _ (run_query_value q v ev)).
    rewrite (bind_Some _ _ _ _ _ (run_queries_frame between ev)).
    rewrite (bind_Some _ _ _ _ _ (run_query_value q v ev)).
    reflexivity.
Qed.

(** ** The total energy *)

Lemma fold_add_energy (l : list Hit) (a : R) :
  fold_left (fun sum h => sum + hit_energy h) l a
  = fold_left Rplus (map hit_energy l) a.
Proof.
  revert a. induction l as [| h l IH]; intros a; [reflexivity | apply IH].
Qed.

(** C10: for every hit collection, CalculateTotalDepositedEnergy returns the
    sum of GetEnergy(i) over all the hits (0 for an empty collection) and
    stores that sum in fTotEnergy; the hits, each of them, and the rest of
    the event are as before. *)
Theorem CalculateTotalDepositedEnergy_sums_and_stores (ev : TRestHitsEvent) :
  let sum := Hits.Rsum (map hit_energy (hits (fHits ev))) in
  CalculateTotalDepositedEnergy ev
  = Some (sum, mkEvent (mkHits (hits (fHits ev)) sum)
                       (fXZHits ev) (fYZHits ev) (fXYZHits ev)) /\
  (hits (fHits ev) = [] -> sum = 0).
Proof.
  intros sum. split.
  - unfold CalculateTotalDepositedEnergy. call.
    erewrite bind_Some.
    2:{ apply (for_loop_read _ (fun sum h => sum + hit_energy h)).
        intros i h s Hn. call. reflexivity. }
    rewrite fold_add_energy. reflexivity.
  - intros E. unfold sum. now rewrite E.
Qed.

(** ** Hit types: the caches and the drawing loops *)

Lemma cache_ptr_store (c : Cache) (hs : TRestHits) (ev : TRestHitsEvent) :
  cache_ptr c (cache_store c hs ev) = Some hs.
Proof. destruct c; reflexivity. Qed.

Lemma cache_store_store (c : Cache) (hs hs' : TRestHits) (ev : TRestHitsEvent) :
  cache_store c hs' (cache_store c hs ev) = cache_store c hs' ev.
Proof. destruct c; reflexivity. Qed.

Lemma fHits_cache_store (c : Cache) (hs : TRestHits) (ev : TRestHitsEvent) :
  fHits (cache_store c hs ev) = fHits ev.
Proof. destruct c; reflexivity. Qed.

Lemma fold_collect_step (c : Cache) (wanted : REST_HitType.t)
    (ev : TRestHitsEvent) (l : list Hit) (hs : TRestHits) :
  fold_left (collect_step c wanted) l (tt, cache_store c hs ev)
  = (tt, cache_store c
           (mkHits (hits hs ++ map (retag wanted) (filter (collects wanted) l))
                   (fTotEnergy hs)) ev).
Proof.
  revert hs. induction l as [| h l IH]; intros hs.
  - cbn. rewrite app_nil_r. now destruct hs.
  - cbn [fold_left filter]. unfold collect_step at 2.
    destruct (collects wanted h).
    + cbn [snd]. rewrite cache_ptr_store, cache_store_store, IH.
      unfold Hits.AddHit. cbn [hits fTotEnergy map].
      now rewrite <- app_assoc.
    + apply IH.
Qed.

(** GetXZHits, GetYZHits and GetXYZHits on an event whose cache is
    allocated: the cache is left holding, and the call returns, the hits
    whose type is the wanted one, in their order; the hits of the event are
    as before. *)
Lemma collect_hits_of_type_run (c : Cache) (wanted : REST_HitType.t)
    (ev : TRestHitsEvent) (old : TRestHits) :
  cache_ptr c ev = Some old ->
  let found :=
    mkHits (map (retag wanted) (filter (collects wanted) (hits (fHits ev))))
           (fTotEnergy old) in
  collect_hits_of_type c wanted ev = Some (found, cache_store c found ev).
Proof.
  intros Hold found. unfold collect_hits_of_type.
  assert (Hrm : cache_RemoveHits c ev
                = Some (tt, cache_store c (Hits.RemoveHits old) ev)).
  { unfold cache_RemoveHits, cache_deref.
    rewrite (bind_Some _ _ ev ev old); [reflexivity |].
    rewrite (bind_Some _ _ ev ev ev eq_refl). now rewrite Hold. }
  rewrite (bind_Some _ _ _ _ _ Hrm).
  set (ev1 := cache_store c (Hits.RemoveHits old) ev).
  assert (Hf1 : fHits ev1 = fHits ev) by apply fHits_cache_store.
  call. rewrite Hf1.
  erewrite bind_Some_pair.
  2:{ apply (for_loop_fold _ (collect_step c wanted)
               (fun e => fHits e = fHits ev /\ exists hs, cache_ptr c e = Some hs)).
      - intros i h [] e [He [hs Hhs]] Hn. rewrite <- He in Hn.
        call. unfold collect_step, collects. cbn [snd].
        destruct (REST_HitType.eqb (hit_type h) wanted).
        + repeat call. rewrite Hhs.
          unfold cache_AddHit, cache_deref.
          rewrite (bind_Some _ _ e e hs);
            [| rewrite (bind_Some _ _ e e e eq_refl); now rewrite Hhs].
          split; [reflexivity |]. cbn [snd].
          rewrite fHits_cache_store, cache_ptr_store. eauto.
        + split; [reflexivity |]. cbn [snd]. eauto.
      - split; [exact Hf1 |]. unfold ev1. rewrite cache_ptr_store. eauto. }
  unfold ev1. rewrite fold_collect_step.
  cbn [fst snd hits fTotEnergy Hits.RemoveHits app].
  fold found. unfold cache_deref.
  rewrite (bind_Some _ _ _ _ _ eq_refl). now rewrite cache_ptr_store.
Qed.

(** On a null cache the call fails. *)
Lemma collect_hits_of_type_null (c : Cache) (wanted : REST_HitType.t)
    (ev : TRestHitsEvent) :
  cache_ptr c ev = None -> collect_hits_of_type c wanted ev = None.
Proof.
  intros H. unfold collect_hits_of_type, cache_RemoveHits, cache_deref.
  apply bind_None, bind_None.
  rewrite (bind_Some _ _ ev ev ev eq_refl). now rewrite H.
Qed.

Lemma fold_append_if {S A B : Type} (sel : A -> bool) (f : A -> B)
    (proj : S -> list B) (g : S -> A -> S) :
  (forall s a, proj (g s a) = if sel a then proj s ++ [f a] else proj s) ->
  forall l s, proj (fold_left g l s) = proj s ++ map f (filter sel l).
Proof.
  intros Hg. induction l as [| a l IH]; intros s; cbn.
  - now rewrite app_nil_r.
  - rewrite IH, Hg. destruct (sel a); [| reflexivity].
    cbn. now rewrite <- app_assoc.
Qed.

Lemma DrawHistograms_entries_run (ev : TRestHitsEvent) :
  let l := hits (fHits ev) in
  DrawHistograms_entries ev
  = Some (mkEntries
            (drawn REST_HitType.XZ (fun p => (TVector3.X p, TVector3.Z p)) l)
            (drawn REST_HitType.YZ (fun p => (TVector3.Y p, TVector3.Z p)) l)
            (drawn REST_HitType.XY (fun p => (TVector3.X p, TVector3.Y p)) l)
            (drawn REST_HitType.X TVector3.X l)
            (drawn REST_HitType.Y TVector3.Y l)
            (drawn REST_HitType.Z TVector3.Z l), ev).
Proof.
  intros l. unfold DrawHistograms_entries. call.
  rewrite (for_loop_read _ histo_step).
  2:{ intros i h s Hn. repeat call. reflexivity. }
  fold l. do 2 f_equal.
  set (e0 := mkEntries [] [] [] [] [] []).
  destruct (fold_left histo_step l e0) as [a b c d e f] eqn:E.
  unfold drawn. f_equal.
  - change a with (inXZ (mkEntries a b c d e f)). rewrite <- E.
    now rewrite (fold_append_if (drawn_on REST_HitType.XZ)
      (fun h => (TVector3.X (hit_pos h), TVector3.Z (hit_pos h))) inXZ histo_step).
  - change b with (inYZ (mkEntries a b c d e f)). rewrite <- E.
    now rewrite (fold_append_if (drawn_on REST_HitType.YZ)
      (fun h => (TVector3.Y (hit_pos h), TVector3.Z (hit_pos h))) inYZ histo_step).
  - change c with (inXY (mkEntries a b c d e f)). rewrite <- E.
    now rewrite (fold_append_if (drawn_on REST_HitType.XY)
      (fun h => (TVector3.X (hit_pos h), TVector3.Y (hit_pos h))) inXY histo_step).
  - change d with (inX (mkEntries a b c d e f)). rewrite <- E.
    now rewrite (fold_append_if (drawn_on REST_HitType.X)
      (fun h => TVector3.X (hit_pos h)) inX histo_step).
  - change e with (inY (mkEntries a b c d e f)). rewrite <- E.
    now rewrite (fold_append_if (drawn_on REST_HitType.Y)
      (fun h => TVector3.Y (hit_pos h)) inY histo_step).
  - change f with (inZ (mkEntries a b c d e f)). rewrite <- E.
    now rewrite (fold_append_if (drawn_on REST_HitType.Z)
      (fun h => TVector3.Z (hit_pos h)) inZ histo_step).
Qed.

Lemma DrawGraphs_points_run (ev : TRestHitsEvent) :
  let l := hits (fHits ev) in
  DrawGraphs_points ev
  = Some ((drawn REST_HitType.XZ (fun p => (TVector3.X p, TVector3.Z p)) l,
           drawn REST_HitType.YZ (fun p => (TVector3.Y p, TVector3.Z p)) l,
           drawn REST_HitType.XY (fun p => (TVector3.X p, TVector3.Y p)) l), ev).
Proof.
  intros l. unfold DrawGraphs_points. call.
  rewrite (for_loop_read _ graph_step).
  2:{ intros i h [[xz yz] xy] Hn. repeat call. reflexivity. }
  fold l. do 2 f_equal.
  set (s0 := ([], [], []) : list (R * R) * list (R * R) * list (R * R)).
  destruct (fold_left graph_step l s0) as [[a b] c] eqn:E.
  unfold drawn. repeat f_equal.
  - change a with (fst (fst (a, b, c))). rewrite <- E.
    rewrite (fold_append_if (drawn_on REST_HitType.XZ)
      (fun h => (TVector3.X (hit_pos h), TVector3.Z (hit_pos h)))
      (fun s => fst (fst s)) graph_step); [reflexivity |].
    now intros [[xz yz] xy] h.
  - change b with (snd (fst (a, b, c))). rewrite <- E.
    rewrite (fold_append_if (drawn_on REST_HitType.YZ)
      (fun h => (TVector3.Y (hit_pos h), TVector3.Z (hit_pos h)))
      (fun s => snd (fst s)) graph_step); [reflexivity |].
    now intros [[xz yz] xy] h.
  - change c with (snd (a, b, c)). rewrite <- E.
    rewrite (fold_append_if (drawn_on REST_HitType.XY)
      (fun h => (TVector3.X (hit_pos h), TVector3.Y (hit_pos h)))
      snd graph_step); [reflexivity |].
    now intros [[xz yz] xy] h.
Qed.

(** C9, as the code has it: a hit of type XYZ passes every projection test
    [type % T == 0] of the drawing loops (XZ, YZ, XY, X, Y, Z), which draw
    exactly the hits that pass, and GetXYZHits collects it; GetXZHits and
    GetYZHits collect the hits whose type [==] XZ, respectively YZ, and so
    no hit of type XYZ.  The caches are allocated, as Initialize leaves
    them. *)
Theorem XYZ_hits_and_the_projections
    (pos : TVector3.t) (en t tot : R) (before after : list Hit)
    (cxz cyz cxyz : TRestHits) :
  let h := mkHit pos en t REST_HitType.XYZ in
  let l := before ++ h :: after in
  let ev := mkEvent (mkHits l tot) (Some cxz) (Some cyz) (Some cxyz) in
  let found wanted old :=
    mkHits (map (retag wanted) (filter (collects wanted) l)) (fTotEnergy old) in
  (forall T : REST_HitType.t, drawn_on T h = true) /\
  DrawHistograms_entries ev
  = Some (mkEntries
            (drawn REST_HitType.XZ (fun p => (TVector3.X p, TVector3.Z p)) l)
            (drawn REST_HitType.YZ (fun p => (TVector3.Y p, TVector3.Z p)) l)
            (drawn REST_HitType.XY (fun p => (TVector3.X p, TVector3.Y p)) l)
            (drawn REST_HitType.X TVector3.X l)
            (drawn REST_HitType.Y TVector3.Y l)
            (drawn REST_HitType.Z TVector3.Z l), ev) /\
  DrawGraphs_points ev
  = Some ((drawn REST_HitType.XZ (fun p => (TVector3.X p, TVector3.Z p)) l,
           drawn REST_HitType.YZ (fun p => (TVector3.Y p, TVector3.Z p)) l,
           drawn REST_HitType.XY (fun p => (TVector3.X p, TVector3.Y p)) l), ev) /\
  GetXYZHits ev
  = Some (found REST_HitType.XYZ cxyz,
          cache_store XYZcache (found REST_HitType.XYZ cxyz) ev) /\
  GetXZHits ev
  = Some (found REST_HitType.XZ cxz,
          cache_store XZcache (found REST_HitType.XZ cxz) ev) /\
  GetYZHits ev
  = Some (found REST_HitType.YZ cyz,
          cache_store YZcache (found REST_HitType.YZ cyz) ev) /\
  collects REST_HitType.XYZ h = true /\
  collects REST_HitType.XZ h = false /\
  collects REST_HitType.YZ h = false.
Proof.
  intros h l ev found.
  split; [intros T; destruct T; reflexivity |].
  split; [apply (DrawHistograms_entries_run ev) |].
  split; [apply (DrawGraphs_points_run ev) |].
  split; [apply (collect_hits_of_type_run XYZcache _ ev cxyz eq_refl) |].
  split; [apply (collect_hits_of_type_run XZcache _ ev cxz eq_refl) |].
  split; [apply (collect_hits_of_type_run YZcache _ ev cyz eq_refl) |].
  repeat split.
Qed.

(** C9 as stated fails: in an initialized event holding one hit of type XYZ,
    GetXZHits and GetYZHits select nothing, while GetXYZHits selects the
    hit. *)
Lemma XYZ_hit_not_collected_counterexample :
  let h := mkHit (TVector3.mk 1 2 3) 4 0 REST_HitType.XYZ in
  let empty := mkHits [] 0 in
  let ev := mkEvent (mkHits [h] 4) (Some empty) (Some empty) (Some empty) in
  hit_type h = REST_HitType.XYZ /\
  GetXZHits ev = Some (empty, ev) /\
  GetYZHits ev = Some (empty, ev) /\
  GetXYZHits ev = Some (mkHits [h] 0, cache_store XYZcache (mkHits [h] 0) ev).
Proof.
  cbv zeta. split; [reflexivity |].
  split; [| split].
  - unfold GetXZHits. erewrite collect_hits_of_type_run by reflexivity. reflexivity.
  - unfold GetYZHits. erewrite collect_hits_of_type_run by reflexivity. reflexivity.
  - unfold GetXYZHits. erewrite collect_hits_of_type_run by reflexivity. reflexivity.
Qed.

(** ** The sentinel of the closest-distance queries *)

Lemma fold_Rmin_ge (l : list R) (a b : R) :
  b <= a -> (forall x, In x l -> b <= x) -> b <= fold_left Rmin l a.
Proof.
  revert a. induction l as [| y l IH]; intros a Ha Hl; cbn; [exact Ha |].
  apply IH.
  - apply Rmin_glb; [exact Ha | apply Hl; now left].
  - intros x Hx. apply Hl. now right.
Qed.

Lemma prism_wall_d_le (x0 : TVector3.t) (sizeX sizeY : R) (P : TVector3.t) :
  prism_wall_d x0 sizeX sizeY P <= Rmin (sizeX / 2) (sizeY / 2).
Proof.
  unfold prism_wall_d. rewrite std_min_Rmin.
  assert (HX := Rabs_pos (TVector3.X (P -v x0))).
  assert (HY := Rabs_pos (TVector3.Y (P -v x0))).
  apply Rmin_glb.
  - eapply Rle_trans; [apply Rmin_l | lra].
  - eapply Rle_trans; [apply Rmin_r | lra].
Qed.

(** The closest distance to an end face: -1 without a contained hit, and
    with one between 0 and the length of the axis. *)
Lemma end_face_sentinel (c : list Hit) (dist : TVector3.t -> R) (L : R) :
  0 <= L ->
  (forall h, In h c -> 0 <= dist (hit_pos h)) ->
  let r := closest_of (fun d => d) L (map (fun h => dist (hit_pos h)) c) in
  (r = -1 <-> length c = 0%nat) /\ (length c <> 0%nat -> r <= L).
Proof.
  intros HL Hd. destruct c as [| h c].
  - cbn. split; [tauto | intros H; now contradiction H].
  - cbv zeta. rewrite closest_of_map_cons.
    set (ds := map (fun h => dist (hit_pos h)) (h :: c)).
    assert (Hlo : 0 <= fold_left Rmin ds L).
    { apply fold_Rmin_ge; [exact HL |].
      intros x Hx. apply in_map_iff in Hx as [h' [<- Hh']]. now apply Hd. }
    split; [| intros _; apply fold_Rmin_le_init].
    split; [intros E; lra | discriminate].
Qed.

Lemma contained_axial (v : Volume) (ev : TRestHitsEvent) (h : Hit) :
  In h (contained_in v ev) ->
  match v with
  | Cylinder x0 x1 _ | Prism x0 x1 _ _ _ =>
      0 <= axial x0 x1 (hit_pos h) <= TVector3.Mag (x1 -v x0)
  end.
Proof. intros H. apply inside_volume_axial. exact (contained_in_inside _ _ _ H). Qed.

Lemma top_bottom_sentinel (q : Query) (v : Volume) (ev : TRestHitsEvent) :
  q = ClosestDistanceToTop \/ q = ClosestDistanceToBottom ->
  sentinel_contract margin q v ev.
Proof.
  intros Hq.
  exists (closest_value q v (contained_in v ev)), (length (contained_in v ev)).
  split; [destruct Hq as [-> | ->]; apply run_query_value |].
  split; [apply run_query_value |].
  assert (Hax := contained_axial v ev).
  destruct Hq as [-> | ->], v as [x0 x1 radius | x0 x1 sizeX sizeY theta];
    cbn [closest_value margin];
    apply end_face_sentinel; try apply Mag_nonneg;
    intros h Hh; specialize (Hax h Hh); cbn in Hax; unfold top_d; lra.
Qed.

Lemma cylinder_wall_sentinel (x0 x1 : TVector3.t) (radius : R) (ev : TRestHitsEvent) :
  sentinel_contract margin ClosestDistanceToWall (Cylinder x0 x1 radius) ev.
Proof.
  set (v := Cylinder x0 x1 radius).
  exists (closest_value ClosestDistanceToWall v (contained_in v ev)),
         (length (contained_in v ev)).
  split; [apply run_query_value |]. split; [apply run_query_value |].
  cbn [closest_value margin v].
  destruct (contained_in v ev) as [| h c].
  - cbn [map length]. rewrite closest_of_nil.
    split; [split; intros _; reflexivity | intros H; now contradiction H].
  - rewrite closest_of_map_cons.
    set (ds := map (fun h => wall_d2 x0 x1 radius (hit_pos h)) (h :: c)).
    split.
    + split; [| discriminate].
      intros E. assert (H := sqrt_pos (fold_left Rmin ds (radius * radius))). lra.
    + intros _. rewrite <- sqrt_Rsqr_abs. unfold Rsqr.
      apply sqrt_le_1_alt, fold_Rmin_le_init.
Qed.

(** Without rotation the two coordinates are the local ones. *)
Lemma prism_wall_d_unrotated (x0 : TVector3.t) (sizeX sizeY : R) (P : TVector3.t) :
  prism_local_wall_d x0 sizeX sizeY 0 P = prism_wall_d x0 sizeX sizeY P.
Proof.
  unfold prism_local_wall_d, prism_wall_d, Hits.local, TVector3.RotateZ.
  cbn [TVector3.X TVector3.Y]. rewrite cos_0, sin_0, std_min_Rmin.
  f_equal; f_equal; f_equal; ring.
Qed.

(** Without rotation the wall query of a prism keeps the contract. *)
Lemma prism_wall_sentinel_unrotated (x0 x1 : TVector3.t) (sizeX sizeY : R)
    (ev : TRestHitsEvent) :
  sentinel_contract margin ClosestDistanceToWall (Prism x0 x1 sizeX sizeY 0) ev.
Proof.
  set (v := Prism x0 x1 sizeX sizeY 0).
  exists (closest_value ClosestDistanceToWall v (contained_in v ev)),
         (length (contained_in v ev)).
  split; [apply run_query_value |]. split; [apply run_query_value |].
  cbn [closest_value margin v].
  assert (Hd : forall h, In h (contained_in v ev) ->
            0 <= prism_wall_d x0 sizeX sizeY (hit_pos h)
            /\ 0 <= sizeX / 2 /\ 0 <= sizeY / 2).
  { intros h Hh. apply contained_in_inside in Hh. cbn in Hh.
    apply insidePrism_spec in Hh as [_ [_ [HX HY]]].
    assert (PX := Rabs_pos (TVector3.X (Hits.local (hit_pos h) x0 0))).
    assert (PY := Rabs_pos (TVector3.Y (Hits.local (hit_pos h) x0 0))).
    rewrite <- prism_wall_d_unrotated. unfold prism_local_wall_d.
    split; [apply Rmin_glb; lra | lra]. }
  destruct (contained_in v ev) as [| h c].
  - cbn [map length]. rewrite closest_of_nil.
    split; [split; intros _; reflexivity | intros H; now contradiction H].
  - rewrite closest_of_map_cons.
    set (ds := map (fun h => prism_wall_d x0 sizeX sizeY (hit_pos h)) (h :: c)).
    assert (Hlo : 0 <= fold_left Rmin ds (std_max (sizeX / 2) (sizeY / 2))).
    { destruct (Hd h (or_introl eq_refl)) as [_ [HX _]].
      apply fold_Rmin_ge.
      - rewrite std_max_Rmax. eapply Rle_trans; [exact HX | apply Rmax_l].
      - intros x Hx. apply in_map_iff in Hx as [h' [<- Hh']].
        now apply Hd. }
    split.
    + split; [intros E; lra | discriminate].
    + intros _.
      eapply Rle_trans; [| apply (prism_wall_d_le x0 sizeX sizeY (hit_pos h))].
      apply fold_Rmin_le_elt. now left.
Qed.

(** Where the contract of the sentinel holds: for the top and the bottom of
    every volume, for the wall of every cylinder (the radius read as a
    length) and for the wall of every prism that is not rotated. *)
Lemma sentinel_kept_elsewhere (v : Volume) (ev : TRestHitsEvent) :
  sentinel_contract margin ClosestDistanceToTop v ev /\
  sentinel_contract margin ClosestDistanceToBottom v ev /\
  match v with
  | Cylinder _ _ _ => sentinel_contract margin ClosestDistanceToWall v ev
  | Prism x0 x1 sizeX sizeY _ =>
      sentinel_contract margin ClosestDistanceToWall (Prism x0 x1 sizeX sizeY 0) ev
  end.
Proof.
  split; [apply top_bottom_sentinel; now left |].
  split; [apply top_bottom_sentinel; now right |].
  destruct v as [x0 x1 radius | x0 x1 sizeX sizeY theta].
  - apply cylinder_wall_sentinel.
  - apply prism_wall_sentinel_unrotated.
Qed.

(** ** A prism turned by a quarter *)

Section QuarterTurn.

Let x0 := TVector3.mk 0 0 0.
Let x1 := TVector3.mk 0 0 4.
Let v := Prism x0 x1 2 6 (PI / 2).
Let h := mkHit (TVector3.mk 2 0 2) 1 0 REST_HitType.XYZ.
Let ev := mkEvent (mkHits [h] 0) None None None.

Lemma four_pos : 0 < 4.
Proof. lra. Qed.

Lemma quarter_turn_contained : contained_in v ev = [h].
Proof.
  unfold contained_in, Hits.contained, inside_volume, v.
  cbn [ev fHits hits filter hit_pos h].
  unfold x0, x1. rewrite (zaxis_insidePrism 4 four_pos).
  rewrite cos_PI2, sin_PI2.
  replace (0 * 2 - 1 * 0) with 0 by ring.
  replace (1 * 2 + 0 * 0) with 2 by ring.
  rewrite Rabs_R0, (Rabs_pos_eq 2) by lra.
  now rewrite !Rleb_true by lra.
Qed.

Lemma quarter_turn_code_distance :
  prism_wall_d x0 2 6 (hit_pos h) = -1.
Proof.
  unfold prism_wall_d, TVector3.sub, x0. cbn.
  rewrite std_min_Rmin.
  replace (2 - 0) with 2 by ring. replace (0 - 0) with 0 by ring.
  rewrite Rabs_R0, (Rabs_pos_eq 2) by lra.
  rewrite Rmin_same_or_above by lra. lra.
Qed.

Lemma quarter_turn_local_distance :
  prism_local_wall_d x0 2 6 (PI / 2) (hit_pos h) = 1.
Proof.
  unfold prism_local_wall_d, Hits.local, TVector3.RotateZ, TVector3.sub, x0. cbn.
  rewrite cos_PI2, sin_PI2.
  replace (0 * (2 - 0) - 1 * (0 - 0)) with 0 by ring.
  replace (1 * (2 - 0) + 0 * (0 - 0)) with 2 by ring.
  rewrite Rabs_R0, (Rabs_pos_eq 2) by lra.
  rewrite Rmin_same_or_above by lra. lra.
Qed.

Lemma quarter_turn_wall :
  GetClosestHitInsideDistanceToPrismWall x0 x1 2 6 (PI / 2) ev = Some (-1, ev).
Proof.
  rewrite PrismWall_run. fold v. rewrite quarter_turn_contained.
  do 2 f_equal. cbn [map]. unfold closest_of. cbn [fold_left].
  rewrite quarter_turn_code_distance, std_max_Rmax.
  apply Rmin_below. unfold Rmax. destruct (Rle_dec _ _); lra.
Qed.

End QuarterTurn.

(** ** The wall of a prism *)

(** What GetClosestHitInsideDistanceToPrismWall returns, whatever theta: -1
    without a contained hit, and otherwise the minimum over the contained
    hits of min(sizeX/2 - |X|, sizeY/2 - |Y|), X and Y being the first two
    coordinates of P - x0 as they stand. *)
Lemma prism_wall_is_min_of_contained
    (ev : TRestHitsEvent) (x0 x1 : TVector3.t) (sizeX sizeY theta : R) :
  let c := contained_in (Prism x0 x1 sizeX sizeY theta) ev in
  exists r : R,
    GetClosestHitInsideDistanceToPrismWall x0 x1 sizeX sizeY theta ev = Some (r, ev) /\
    match c with
    | [] => r = -1
    | _ :: _ => is_min_of r (map (fun h => prism_wall_d x0 sizeX sizeY (hit_pos h)) c)
    end.
Proof.
  intros c. eexists. split; [apply PrismWall_run |].
  fold c. destruct c as [| h c'] eqn:Hc; [reflexivity |].
  rewrite closest_of_map_cons.
  apply fold_Rmin_is_min; [discriminate |].
  intros x Hx. apply in_map_iff in Hx as [h' [<- _]].
  eapply Rle_trans; [apply prism_wall_d_le |].
  rewrite std_max_Rmax.
  eapply Rle_trans; [apply Rmin_l | apply Rmax_l].
Qed.

(** C2 fails on a prism turned by a quarter: x0 = (0,0,0), x1 = (0,0,4),
    sizeX = 2, sizeY = 6, theta = pi/2, and the one hit (2,0,2).  The hit is
    contained, its local coordinates being (0,2); dX = 1 - 0 and
    dY = 3 - 2 give the wall distance 1.
    GetClosestHitInsideDistanceToPrismWall, which measures the margins on
    the coordinates before the rotation, returns 1 - 2 = -1. *)
Theorem prism_wall_ignores_the_rotation :
  let x0 := TVector3.mk 0 0 0 in
  let x1 := TVector3.mk 0 0 4 in
  let h := mkHit (TVector3.mk 2 0 2) 1 0 REST_HitType.XYZ in
  let ev := mkEvent (mkHits [h] 0) None None None in
  let c := contained_in (Prism x0 x1 2 6 (PI / 2)) ev in
  c = [h] /\
  closest_of (fun d => d) (Rmax (2 / 2) (6 / 2))
    (map (fun h => prism_local_wall_d x0 2 6 (PI / 2) (hit_pos h)) c) = 1 /\
  GetClosestHitInsideDistanceToPrismWall x0 x1 2 6 (PI / 2) ev = Some (-1, ev).
Proof.
  intros x0 x1 h ev c.
  assert (Hc : c = [h]) by exact quarter_turn_contained.
  split; [exact Hc |]. split; [| exact quarter_turn_wall].
  rewrite Hc. cbn [map]. unfold closest_of. cbn [fold_left].
  rewrite (quarter_turn_local_distance : prism_local_wall_d x0 2 6 (PI / 2) (hit_pos h) = 1).
  apply Rmin_below. unfold Rmax. destruct (Rle_dec _ _); lra.
Qed.

(** C4 fails on the prism turned by a quarter, x0 = (0,0,0), x1 = (0,0,4),
    sizeX = 2, sizeY = 6, theta = pi/2, with the one hit (2,0,2): the count
    of contained hits is 1 and GetClosestHitInsideDistanceToPrismWall
    returns -1, the value that stands for no contained hit. *)
Theorem prism_wall_returns_the_sentinel_for_a_contained_hit :
  let x0 := TVector3.mk 0 0 0 in
  let v := Prism x0 (TVector3.mk 0 0 4) 2 6 (PI / 2) in
  let ev := mkEvent (mkHits [mkHit (TVector3.mk 2 0 2) 1 0 REST_HitType.XYZ] 0)
                    None None None in
  run_query CountInside v ev = Some (Int_r 1, ev) /\
  run_query ClosestDistanceToWall v ev = Some (Double_r (-1), ev) /\
  ~ sentinel_contract stated_margin ClosestDistanceToWall v ev.
Proof.
  intros x0 v ev.
  assert (Hc : contained_in v ev = [mkHit (TVector3.mk 2 0 2) 1 0 REST_HitType.XYZ])
    by exact quarter_turn_contained.
  assert (Hn : run_query CountInside v ev = Some (Int_r 1, ev)).
  { rewrite run_query_value. cbn [query_value].
    fold (contained_in v ev). now rewrite Hc. }
  assert (Hr : run_query ClosestDistanceToWall v ev = Some (Double_r (-1), ev)).
  { cbn [run_query v]. apply fmap_Some. exact quarter_turn_wall. }
  split; [exact Hn |]. split; [exact Hr |].
  intros [r [n [Hr' [Hn' [Hiff _]]]]].
  rewrite Hr in Hr'. rewrite Hn in Hn'.
  injection Hr' as <-. injection Hn' as <-.
  destruct Hiff as [Hiff _]. specialize (Hiff eq_refl). discriminate Hiff.
Qed.

Lemma CalculateTotalDepositedEnergy_run (ev : TRestHitsEvent) :
  CalculateTotalDepositedEnergy ev
  = Some (Hits.Rsum (map hit_energy (hits (fHits ev))),
          mkEvent (mkHits (hits (fHits ev))
                          (Hits.Rsum (map hit_energy (hits (fHits ev)))))
                  (fXZHits ev) (fYZHits ev) (fXYZHits ev)).
Proof.
  unfold CalculateTotalDepositedEnergy. call.
  erewrite bind_Some.
  2:{ apply (for_loop_read _ (fun sum h => sum + hit_energy h)).
      intros i h s Hn. call. reflexivity. }
  rewrite fold_add_energy. reflexivity.
Qed.

(** * Further properties *)

(** ** The caches, from construction on *)

Lemma eqb_hit_type (a b : REST_HitType.t) :
  REST_HitType.eqb a b = true <-> a = b.
Proof.
  split; [| intros ->; destruct b; reflexivity].
  destruct a, b; intros H; try reflexivity; discriminate H.
Qed.

Lemma retag_own_type (wanted : REST_HitType.t) (h : Hit) :
  collects wanted h = true -> retag wanted h = h.
Proof.
  unfold collects. intros H. apply eqb_hit_type in H.
  destruct h as [[x y z] en t ty]. cbn in H. subst ty. reflexivity.
Qed.

Lemma map_retag_collected (wanted : REST_HitType.t) (l : list Hit) :
  map (retag wanted) (filter (collects wanted) l) = filter (collects wanted) l.
Proof.
  induction l as [| h l IH]; [reflexivity |]. cbn.
  destruct (collects wanted h) eqn:E; [| exact IH].
  cbn. now rewrite IH, retag_own_type.
Qed.

Lemma collect_fails_iff_null (c : Cache) (wanted : REST_HitType.t)
    (ev : TRestHitsEvent) :
  collect_hits_of_type c wanted ev = None <-> cache_ptr c ev = None.
Proof.
  split; [| apply collect_hits_of_type_null].
  destruct (cache_ptr c ev) as [old |] eqn:E; [| reflexivity].
  now rewrite (collect_hits_of_type_run c wanted ev old E).
Qed.

Lemma AddHit_run (h : Hit) (ev : TRestHitsEvent) :
  AddHit (TVector3.X (hit_pos h)) (TVector3.Y (hit_pos h)) (TVector3.Z (hit_pos h))
         (hit_energy h) (hit_time h) (hit_type h) ev
  = Some (tt, mkEvent (mkHits (hits (fHits ev) ++ [h]) (fTotEnergy (fHits ev)))
                      (fXZHits ev) (fYZHits ev) (fXYZHits ev)).
Proof. destruct h as [[x y z] en t ty]. reflexivity. Qed.

Lemma AddHits_run (l : list Hit) (ev : TRestHitsEvent) :
  AddHits l ev
  = Some (tt, mkEvent (mkHits (hits (fHits ev) ++ l) (fTotEnergy (fHits ev)))
                      (fXZHits ev) (fYZHits ev) (fXYZHits ev)).
Proof.
  revert ev. induction l as [| h l IH]; intros ev.
  - cbn. rewrite app_nil_r. now destruct ev as [[hs tot] a b c].
  - cbn [AddHits]. rewrite (bind_Some _ _ _ _ _ (AddHit_run h ev)).
    rewrite IH. cbn [fHits hits fTotEnergy fXZHits fYZHits fXYZHits].
    now rewrite <- app_assoc.
Qed.

(** X1: GetXZHits, GetYZHits and GetXYZHits fail exactly when their cache
    pointer is null, which is how the constructor leaves the three of
    them. *)
Theorem collecting_fails_exactly_on_a_null_cache (ev : TRestHitsEvent) :
  (GetXZHits ev = None <-> fXZHits ev = None) /\
  (GetYZHits ev = None <-> fYZHits ev = None) /\
  (GetXYZHits ev = None <-> fXYZHits ev = None) /\
  GetXZHits constructed = None /\
  GetYZHits constructed = None /\
  GetXYZHits constructed = None.
Proof.
  split; [apply (collect_fails_iff_null XZcache) |].
  split; [apply (collect_fails_iff_null YZcache) |].
  split; [apply (collect_fails_iff_null XYZcache) |].
  repeat split; now apply collect_hits_of_type_null.
Qed.

(** X2: whatever the event was, after Initialize and any number of AddHit
    calls each of GetXZHits, GetYZHits and GetXYZHits succeeds and returns
    the added hits of its type, unchanged and in the order of their
    addition. *)
Theorem collecting_after_Initialize (ev : TRestHitsEvent) (l : list Hit) :
  exists (xz yz xyz : TRestHits) (e1 e2 e3 : TRestHitsEvent),
    (Initialize ;; AddHits l ;; GetXZHits) ev = Some (xz, e1) /\
    (Initialize ;; AddHits l ;; GetYZHits) ev = Some (yz, e2) /\
    (Initialize ;; AddHits l ;; GetXYZHits) ev = Some (xyz, e3) /\
    hits xz = filter (collects REST_HitType.XZ) l /\
    hits yz = filter (collects REST_HitType.YZ) l /\
    hits xyz = filter (collects REST_HitType.XYZ) l /\
    hits (fHits e1) = l /\ hits (fHits e2) = l /\ hits (fHits e3) = l.
Proof.
  assert (Hinit : Initialize ev
                  = Some (tt, mkEvent (mkHits [] (fTotEnergy (fHits ev)))
                                (Some (mkHits [] 0)) (Some (mkHits [] 0))
                                (Some (mkHits [] 0)))) by reflexivity.
  set (ev0 := mkEvent (mkHits [] (fTotEnergy (fHits ev)))
                (Some (mkHits [] 0)) (Some (mkHits [] 0)) (Some (mkHits [] 0))) in Hinit.
  assert (Hadd := AddHits_run l ev0).
  cbn [ev0 fHits hits fTotEnergy fXZHits fYZHits fXYZHits app] in Hadd.
  set (ev1 := mkEvent (mkHits l (fTotEnergy (fHits ev)))
                (Some (mkHits [] 0)) (Some (mkHits [] 0)) (Some (mkHits [] 0))) in Hadd.
  assert (Hc : forall c wanted,
            (Initialize ;; AddHits l ;; collect_hits_of_type c wanted) ev
            = Some (mkHits (filter (collects wanted) l) 0,
                    cache_store c (mkHits (filter (collects wanted) l) 0) ev1)).
  { intros c wanted.
    rewrite (bind_Some _ _ _ _ _ Hinit), (bind_Some _ _ _ _ _ Hadd).
    rewrite (collect_hits_of_type_run c wanted ev1 (mkHits [] 0))
      by (destruct c; reflexivity).
    cbn [ev1 fHits hits fTotEnergy]. now rewrite map_retag_collected. }
  do 6 eexists.
  split; [apply (Hc XZcache) |]. split; [apply (Hc YZcache) |].
  split; [apply (Hc XYZcache) |].
  repeat split.
Qed.

(** X3: a second call of GetXZHits, GetYZHits or GetXYZHits right after the
    first returns the same collection and leaves the same event; a failing
    first call fails the pair. *)
Theorem collecting_twice_is_collecting_once (ev : TRestHitsEvent) :
  (GetXZHits ;; GetXZHits) ev = GetXZHits ev /\
  (GetYZHits ;; GetYZHits) ev = GetYZHits ev /\
  (GetXYZHits ;; GetXYZHits) ev = GetXYZHits ev.
Proof.
  assert (H : forall c wanted,
            (collect_hits_of_type c wanted ;; collect_hits_of_type c wanted) ev
            = collect_hits_of_type c wanted ev).
  { intros c wanted. destruct (cache_ptr c ev) as [old |] eqn:E.
    - rewrite (bind_Some _ _ _ _ _ (collect_hits_of_type_run c wanted ev old E)).
      rewrite (collect_hits_of_type_run c wanted ev old E).
      erewrite collect_hits_of_type_run by apply cache_ptr_store.
      rewrite fHits_cache_store, cache_store_store. reflexivity.
    - rewrite (collect_hits_of_type_null c wanted ev E).
      apply bind_None. now apply collect_hits_of_type_null. }
  split; [apply (H XZcache) |]. split; [apply (H YZcache) | apply (H XYZcache)].
Qed.

(** X4: the member functions that write to the event (GetXZHits, GetYZHits,
    GetXYZHits on allocated caches, CalculateTotalDepositedEnergy) do not
    change what any query returns: a query run after one of them gives the
    result it gives before. *)
Theorem writers_keep_the_queries
    (q : Query) (v : Volume) (hs cxz cyz cxyz : TRestHits) :
  let ev := mkEvent hs (Some cxz) (Some cyz) (Some cxyz) in
  exists (r : Result) (e1 e2 e3 e4 : TRestHitsEvent),
    run_query q v ev = Some (r, ev) /\
    (GetXZHits ;; run_query q v) ev = Some (r, e1) /\
    (GetYZHits ;; run_query q v) ev = Some (r, e2) /\
    (GetXYZHits ;; run_query q v) ev = Some (r, e3) /\
    (CalculateTotalDepositedEnergy ;; run_query q v) ev = Some (r, e4).
Proof.
  intros ev.
  assert (Hc : forall c wanted old, cache_ptr c ev = Some old ->
            exists e, (collect_hits_of_type c wanted ;; run_query q v) ev
                      = Some (query_value q v (hits hs), e)).
  { intros c wanted old Hold. eexists.
    rewrite (bind_Some _ _ _ _ _ (collect_hits_of_type_run c wanted ev old Hold)).
    rewrite run_query_value, fHits_cache_store. reflexivity. }
  destruct (Hc XZcache REST_HitType.XZ cxz eq_refl) as [e1 H1].
  destruct (Hc YZcache REST_HitType.YZ cyz eq_refl) as [e2 H2].
  destruct (Hc XYZcache REST_HitType.XYZ cxyz eq_refl) as [e3 H3].
  exists (query_value q v (hits hs)), e1, e2, e3. eexists.
  split; [apply run_query_value |].
  split; [exact H1 |]. split; [exact H2 |]. split; [exact H3 |].
  rewrite (bind_Some _ _ _ _ _ (CalculateTotalDepositedEnergy_run ev)).
  now rewrite run_query_value.
Qed.

(** ** Adding a hit *)

Lemma fold_Rmin_snoc (l : list R) (a d : R) :
  fold_left Rmin (l ++ [d]) a = Rmin (fold_left Rmin l a) d.
Proof. now rewrite fold_left_app. Qed.

Lemma contained_snoc (inside : TVector3.t -> bool) (l : list Hit) (h : Hit) :
  Hits.contained inside (l ++ [h])
  = Hits.contained inside l ++ (if inside (hit_pos h) then [h] else []).
Proof. unfold Hits.contained. rewrite filter_app. reflexivity. Qed.

Lemma closest_of_snoc_le (post : R -> R) (init : R) (ds : list R) (d : R) :
  (forall a b, a <= b -> post a <= post b) ->
  ds <> [] ->
  closest_of post init (ds ++ [d]) <= closest_of post init ds.
Proof.
  intros Hmono Hne. destruct ds as [| d0 ds]; [contradiction |].
  change ((d0 :: ds) ++ [d]) with (d0 :: (ds ++ [d])).
  unfold closest_of. change (d0 :: (ds ++ [d])) with ((d0 :: ds) ++ [d]).
  rewrite fold_Rmin_snoc. apply Hmono, Rmin_l.
Qed.

Lemma closest_value_snoc_le (q : Query) (v : Volume) (c : list Hit) (h : Hit) :
  c <> [] -> closest_value q v (c ++ [h]) <= closest_value q v c.
Proof.
  intros Hne.
  assert (Hid : forall a b : R, a <= b -> a <= b) by trivial.
  assert (Hmap : forall f : Hit -> R, map f c <> []).
  { intros f E. apply map_eq_nil in E. contradiction. }
  destruct v, q; cbn [closest_value]; rewrite map_app; cbn [map];
    apply closest_of_snoc_le; auto using sqrt_le_1_alt.
Qed.

(** X5: AddHit appends; for each closest-distance query and each volume, a
    hit added outside the volume leaves the result as it is, and once a hit
    is contained an added hit never raises the result. *)
Theorem adding_a_hit_never_raises_a_closest_distance
    (v : Volume) (ev : TRestHitsEvent) (h : Hit) :
  exists ev' : TRestHitsEvent,
    AddHit (TVector3.X (hit_pos h)) (TVector3.Y (hit_pos h)) (TVector3.Z (hit_pos h))
           (hit_energy h) (hit_time h) (hit_type h) ev = Some (tt, ev') /\
    hits (fHits ev') = hits (fHits ev) ++ [h] /\
    never_raised ClosestDistanceToWall v h ev ev' /\
    never_raised ClosestDistanceToTop v h ev ev' /\
    never_raised ClosestDistanceToBottom v h ev ev'.
Proof.
  eexists. split; [apply AddHit_run |]. split; [reflexivity |].
  assert (Hsnoc := contained_snoc (inside_volume v) (hits (fHits ev)) h).
  assert (H : forall q,
            q = ClosestDistanceToWall \/ q = ClosestDistanceToTop
            \/ q = ClosestDistanceToBottom ->
            never_raised q v h ev
              (mkEvent (mkHits (hits (fHits ev) ++ [h]) (fTotEnergy (fHits ev)))
                       (fXZHits ev) (fYZHits ev) (fXYZHits ev))).
  { intros q Hq. unfold never_raised.
    exists (closest_value q v (contained_in v ev)).
    exists (closest_value q v (Hits.contained (inside_volume v) (hits (fHits ev) ++ [h]))).
    rewrite !run_query_value. cbn [fHits hits].
    split; [destruct Hq as [-> | [-> | ->]]; reflexivity |].
    split; [destruct Hq as [-> | [-> | ->]]; reflexivity |].
    rewrite Hsnoc. split.
    - intros ->. now rewrite app_nil_r.
    - intros Hne. destruct (inside_volume v (hit_pos h)).
      + now apply closest_value_snoc_le.
      + rewrite app_nil_r. apply Rle_refl. }
  split; [apply H; now left |].
  split; [apply H; right; now left | apply H; right; now right].
Qed.

(** X6: with a contained hit, the closest distance to the top and the
    closest distance to the bottom add up to at most the length of the
    axis, for a cylinder and for a prism. *)
Theorem top_and_bottom_within_the_axis (v : Volume) (ev : TRestHitsEvent) :
  exists top bottom : R,
    run_query ClosestDistanceToTop v ev = Some (Double_r top, ev) /\
    run_query ClosestDistanceToBottom v ev = Some (Double_r bottom, ev) /\
    match contained_in v ev with
    | [] => top = -1 /\ bottom = -1
    | _ :: _ =>
        top + bottom <= match v with
                        | Cylinder x0 x1 _ | Prism x0 x1 _ _ _ =>
                            TVector3.Mag (x1 -v x0)
                        end
    end.
Proof.
  do 2 eexists. rewrite !run_query_value. cbn [query_value].
  split; [reflexivity |]. split; [reflexivity |].
  fold (contained_in v ev).
  destruct (contained_in v ev) as [| h c] eqn:Hc.
  - destruct v; split; reflexivity.
  - assert (Hgen : forall x0 x1,
      closest_of (fun d => d) (TVector3.Mag (x1 -v x0))
        (map (fun h => top_d x0 x1 (hit_pos h)) (h :: c))
      + closest_of (fun d => d) (TVector3.Mag (x1 -v x0))
          (map (fun h => axial x0 x1 (hit_pos h)) (h :: c))
      <= TVector3.Mag (x1 -v x0)).
    { intros x0 x1. rewrite !closest_of_map_cons.
      assert (H1 := fold_Rmin_le_elt
                      (map (fun h => top_d x0 x1 (hit_pos h)) (h :: c))
                      (TVector3.Mag (x1 -v x0)) (top_d x0 x1 (hit_pos h))
                      (or_introl eq_refl)).
      assert (H2 := fold_Rmin_le_elt
                      (map (fun h => axial x0 x1 (hit_pos h)) (h :: c))
                      (TVector3.Mag (x1 -v x0)) (axial x0 x1 (hit_pos h))
                      (or_introl eq_refl)).
      assert (E : top_d x0 x1 (hit_pos h)
                  = TVector3.Mag (x1 -v x0) - axial x0 x1 (hit_pos h))
        by reflexivity.
      cbv beta. lra. }
    destruct v; cbn [closest_value]; apply Hgen.
Qed.

(** ** Boundaries *)

Lemma fold_proj {S A B : Type} (proj : S -> B) (g : S -> A -> S) (step : B -> A -> B) :
  (forall s a, proj (g s a) = step (proj s) a) ->
  forall l s, proj (fold_left g l s) = fold_left step l (proj s).
Proof.
  intros Hg. induction l as [| a l IH]; intros s; cbn; [reflexivity |].
  now rewrite IH, Hg.
Qed.

Lemma update_max (m x : R) : (if Rltb m x then x else m) = Rmax m x.
Proof.
  unfold Rltb, Rmax. destruct (Rlt_dec m x), (Rle_dec m x); lra.
Qed.

Lemma fold_max_coord (coord : Hit -> R) (l : list Hit) (a : R) :
  fold_left (fun m h => if Rltb m (coord h) then coord h else m) l a
  = fold_left Rmax (map coord l) a.
Proof.
  revert a. induction l as [| h l IH]; intros a; cbn; [reflexivity |].
  now rewrite IH, update_max.
Qed.

Lemma fold_min_coord (coord : Hit -> R) (l : list Hit) (a : R) :
  fold_left (fun m h => if Rltb (coord h) m then coord h else m) l a
  = fold_left Rmin (map coord l) a.
Proof.
  revert a. induction l as [| h l IH]; intros a; cbn; [reflexivity |].
  now rewrite IH, update_min.
Qed.

Lemma fold_Rmax_ge_init (l : list R) (a : R) : a <= fold_left Rmax l a.
Proof.
  revert a. induction l as [| x l IH]; intros a; cbn; [lra |].
  eapply Rle_trans; [apply Rmax_l | apply IH].
Qed.

Lemma fold_Rmax_ge_elt (l : list R) (a x : R) : In x l -> x <= fold_left Rmax l a.
Proof.
  revert a. induction l as [| y l IH]; intros a; cbn; [tauto |].
  intros [-> | Hin]; [| now apply IH].
  eapply Rle_trans; [apply Rmax_r | apply fold_Rmax_ge_init].
Qed.

Lemma fold_Rmax_In (l : list R) (a : R) :
  fold_left Rmax l a = a \/ In (fold_left Rmax l a) l.
Proof.
  revert a. induction l as [| y l IH]; intros a; cbn; [now left |].
  destruct (IH (Rmax a y)) as [E | Hin]; [| now right; right].
  rewrite E. unfold Rmax. destruct (Rle_dec a y); [now right; left | now left].
Qed.

Lemma fold_Rmax_is_max (l : list R) (a : R) :
  l <> [] -> (forall x, In x l -> a <= x) -> is_max_of (fold_left Rmax l a) l.
Proof.
  intros Hne Hle. split; [| intros x; apply fold_Rmax_ge_elt].
  destruct (fold_Rmax_In l a) as [E | Hin]; [| exact Hin].
  destruct l as [| y l]; [contradiction |].
  assert (Hy : y <= fold_left Rmax (y :: l) a) by (apply fold_Rmax_ge_elt; now left).
  assert (Hya : a <= y) by (apply Hle; now left).
  rewrite E in *. left. lra.
Qed.

(** The members after SetBoundaries, as running extrema over the hits. *)
Lemma SetBoundaries_run (this : DrawnEvent) :
  let l := hits (fHits (base this)) in
  SetBoundaries this
  = Some (tt, mkDrawn (base this)
                (fold_left Rmin (map (fun h => TVector3.X (hit_pos h)) l) 1e10)
                (fold_left Rmax (map (fun h => TVector3.X (hit_pos h)) l) (-1e10))
                (fold_left Rmin (map (fun h => TVector3.Y (hit_pos h)) l) 1e10)
                (fold_left Rmax (map (fun h => TVector3.Y (hit_pos h)) l) (-1e10))
                (fold_left Rmin (map (fun h => TVector3.Z (hit_pos h)) l) 1e10)
                (fold_left Rmax (map (fun h => TVector3.Z (hit_pos h)) l) (-1e10))).
Proof.
  intros l. unfold SetBoundaries, SetBoundaries_scan.
  set (e0 := mkExtent (-1e10) 1e10 (-1e10) 1e10 (-1e10) 1e10).
  rewrite (bind_Some _ _ _ _ _ (GetNumberOfHits_run (base this))).
  rewrite (for_loop_read _ extent_step).
  2:{ intros i h s Hn. repeat call. reflexivity. }
  fold l. do 2 f_equal.
  f_equal.
  - rewrite (fold_proj minX extent_step
               (fun m h => if Rltb (TVector3.X (hit_pos h)) m
                           then TVector3.X (hit_pos h) else m)) by reflexivity.
    apply fold_min_coord.
  - rewrite (fold_proj maxX extent_step
               (fun m h => if Rltb m (TVector3.X (hit_pos h))
                           then TVector3.X (hit_pos h) else m)) by reflexivity.
    apply fold_max_coord.
  - rewrite (fold_proj minY extent_step
               (fun m h => if Rltb (TVector3.Y (hit_pos h)) m
                           then TVector3.Y (hit_pos h) else m)) by reflexivity.
    apply fold_min_coord.
  - rewrite (fold_proj maxY extent_step
               (fun m h => if Rltb m (TVector3.Y (hit_pos h))
                           then TVector3.Y (hit_pos h) else m)) by reflexivity.
    apply fold_max_coord.
  - rewrite (fold_proj minZ extent_step
               (fun m h => if Rltb (TVector3.Z (hit_pos h)) m
                           then TVector3.Z (hit_pos h) else m)) by reflexivity.
    apply fold_min_coord.
  - rewrite (fold_proj maxZ extent_step
               (fun m h => if Rltb m (TVector3.Z (hit_pos h))
                           then TVector3.Z (hit_pos h) else m)) by reflexivity.
    apply fold_max_coord.
Qed.

(** X7: SetBoundaries never fails, touches nothing but the six boundary
    members, and leaves a box that holds every hit: fMin <= coordinate <=
    fMax in each of X, Y and Z, whatever the coordinates are. *)
Theorem SetBoundaries_boxes_every_hit (this : DrawnEvent) :
  exists this' : DrawnEvent,
    SetBoundaries this = Some (tt, this') /\
    base this' = base this /\
    forall h : Hit, In h (hits (fHits (base this))) ->
      fMinX this' <= TVector3.X (hit_pos h) <= fMaxX this' /\
      fMinY this' <= TVector3.Y (hit_pos h) <= fMaxY this' /\
      fMinZ this' <= TVector3.Z (hit_pos h) <= fMaxZ this'.
Proof.
  eexists. split; [apply SetBoundaries_run |]. split; [reflexivity |].
  intros h Hh. cbn [fMinX fMaxX fMinY fMaxY fMinZ fMaxZ].
  repeat split;
    first [ apply fold_Rmin_le_elt | apply fold_Rmax_ge_elt ];
    apply in_map_iff; exists h; split; trivial.
Qed.

Lemma truncate_nonneg (r : R) : 0 <= r -> r - 1 < IZR (truncate r) <= r.
Proof.
  intros Hr. unfold truncate. destruct (Rle_dec 0 r); [| contradiction].
  destruct (base_Int_part r). lra.
Qed.

Lemma to_Int_t_fits (r : R) :
  0 <= r -> r < 2147483648 -> to_Int_t r = Some (truncate r).
Proof.
  intros H0 Hr. destruct (truncate_nonneg r H0) as [Hlo Hhi].
  unfold to_Int_t. cbv zeta.
  assert (H1 : (-1 < truncate r)%Z) by (apply lt_IZR; lra).
  assert (H2 : (truncate r < 2147483648)%Z) by (apply lt_IZR; lra).
  replace (-2147483648 <=? truncate r)%Z with true by (symmetry; apply Z.leb_le; lia).
  replace (truncate r <=? 2147483647)%Z with true by (symmetry; apply Z.leb_le; lia).
  reflexivity.
Qed.

Lemma to_Int_t_below (r : R) : r <= -2147483650 -> to_Int_t r = None.
Proof.
  intros Hr. unfold to_Int_t, truncate. cbv zeta.
  destruct (Rle_dec 0 r); [lra |].
  destruct (base_Int_part (- r)) as [_ Hgt].
  assert (H : (2147483648 < Int_part (- r))%Z) by (apply lt_IZR; lra).
  replace (-2147483648 <=? - Int_part (- r))%Z with false
    by (symmetry; apply Z.leb_gt; lia).
  reflexivity.
Qed.

Lemma fold_Rmax_le (l : list R) (a b : R) :
  a <= b -> (forall x, In x l -> x <= b) -> fold_left Rmax l a <= b.
Proof.
  revert a. induction l as [| y l IH]; intros a Ha Hl; cbn; [exact Ha |].
  apply IH.
  - apply Rmax_lub; [exact Ha | apply Hl; now left].
  - intros x Hx. apply Hl. now right.
Qed.

(** X8: on a non-empty collection whose coordinates all lie between -1e10
    and 1e10, SetBoundaries leaves in fMinX, fMinY, fMinZ the smallest and
    in fMaxX, fMaxY, fMaxZ the largest coordinate of the hits. *)
Theorem SetBoundaries_is_tight (this : DrawnEvent) :
  let l := hits (fHits (base this)) in
  l <> [] ->
  (forall h : Hit, In h l ->
     -1e10 <= TVector3.X (hit_pos h) <= 1e10 /\
     -1e10 <= TVector3.Y (hit_pos h) <= 1e10 /\
     -1e10 <= TVector3.Z (hit_pos h) <= 1e10) ->
  exists this' : DrawnEvent,
    SetBoundaries this = Some (tt, this') /\
    is_min_of (fMinX this') (map (fun h => TVector3.X (hit_pos h)) l) /\
    is_max_of (fMaxX this') (map (fun h => TVector3.X (hit_pos h)) l) /\
    is_min_of (fMinY this') (map (fun h => TVector3.Y (hit_pos h)) l) /\
    is_max_of (fMaxY this') (map (fun h => TVector3.Y (hit_pos h)) l) /\
    is_min_of (fMinZ this') (map (fun h => TVector3.Z (hit_pos h)) l) /\
    is_max_of (fMaxZ this') (map (fun h => TVector3.Z (hit_pos h)) l).
Proof.
  intros l Hne Hrange.
  eexists. split; [apply SetBoundaries_run |].
  cbn [fMinX fMaxX fMinY fMaxY fMinZ fMaxZ]. fold l.
  assert (Hmap : forall f : Hit -> R, map f l <> []).
  { intros f E. apply map_eq_nil in E. contradiction. }
  repeat split;
    first [ apply fold_Rmin_is_min | apply fold_Rmax_is_max
          | apply fold_Rmin_le_elt | apply fold_Rmax_ge_elt ];
    try apply Hmap; try assumption;
    intros x Hx; apply in_map_iff in Hx as [h [<- Hh]];
    destruct (Hrange h Hh) as [Hx [Hy Hz]]; lra.
Qed.

Lemma SetBoundaries_is_tight_witness :
  let h := mkHit (TVector3.mk 1 2 3) 4 0 REST_HitType.XYZ in
  let this := mkDrawn (mkEvent (mkHits [h] 4) None None None) (-10) 10 (-10) 10 (-10) 10 in
  exists this' : DrawnEvent,
    SetBoundaries this = Some (tt, this') /\
    is_min_of (fMinX this') [1] /\ is_max_of (fMaxX this') [1] /\
    is_min_of (fMinY this') [2] /\ is_max_of (fMaxY this') [2] /\
    is_min_of (fMinZ this') [3] /\ is_max_of (fMaxZ this') [3].
Proof.
  cbv zeta.
  apply (SetBoundaries_is_tight
           (mkDrawn (mkEvent (mkHits [mkHit (TVector3.mk 1 2 3) 4 0 REST_HitType.XYZ] 4)
                             None None None) (-10) 10 (-10) 10 (-10) 10)).
  - discriminate.
  - intros h [<- | []]. cbn. lra.
Defined.

(** X9: on an event without hits SetBoundaries leaves the box inside out,
    every fMin at 1e10 and every fMax at -1e10, and the numbers of bins that
    DrawHistograms then computes from it do not fit an Int_t for any pitch
    between 0 and 9. *)
Theorem empty_event_has_no_histograms (this : DrawnEvent) (pitch : R) :
  hits (fHits (base this)) = [] ->
  0 < pitch <= 9 ->
  SetBoundaries this
  = Some (tt, mkDrawn (base this) 1e10 (-1e10) 1e10 (-1e10) 1e10 (-1e10)) /\
  DrawHistograms_axes pitch
    (mkDrawn (base this) 1e10 (-1e10) 1e10 (-1e10) 1e10 (-1e10)) = None.
Proof.
  intros Hempty Hpitch. split.
  - rewrite SetBoundaries_run, Hempty. reflexivity.
  - unfold DrawHistograms_axes. cbn [fMinX fMaxX].
    rewrite (Reqb_false pitch 0) by lra.
    rewrite to_Int_t_below; [reflexivity |].
    apply (Rmult_le_reg_r pitch); [lra |].
    unfold Rdiv. rewrite Rmult_assoc, Rinv_l by lra. lra.
Qed.

Lemma empty_event_has_no_histograms_witness :
  let this := mkDrawn constructed (-10) 10 (-10) 10 (-10) 10 in
  SetBoundaries this
  = Some (tt, mkDrawn (base this) 1e10 (-1e10) 1e10 (-1e10) 1e10 (-1e10)) /\
  DrawHistograms_axes 3
    (mkDrawn (base this) 1e10 (-1e10) 1e10 (-1e10) 1e10 (-1e10)) = None.
Proof.
  cbv zeta.
  apply (empty_event_has_no_histograms (mkDrawn constructed (-10) 10 (-10) 10 (-10) 10) 3).
  - reflexivity.
  - lra.
Defined.

(** The upper edge of an axis of [pitch * n] (or [pitch/3 * n]) from the
    lower boundary, [n] being the truncated quotient, lies above the upper
    boundary when the pitch is at most 20. *)
Lemma upper_edge_above (lo hi pitch : R) :
  lo <= hi -> 0 < pitch <= 20 ->
  hi < lo + pitch * IZR (truncate ((hi - lo + 20) / pitch)).
Proof.
  intros Hlh Hp. set (q := (hi - lo + 20) / pitch).
  assert (Hq : pitch * q = hi - lo + 20) by (unfold q; field; lra).
  assert (H0 : 0 <= q).
  { unfold q. apply Rmult_le_pos; [lra |]. left. apply Rinv_0_lt_compat. lra. }
  destruct (truncate_nonneg q H0) as [Hlo _].
  assert (pitch * (q - 1) < pitch * IZR (truncate q))
    by (apply Rmult_lt_compat_l; lra).
  lra.
Qed.

Lemma upper_edge_above_3 (lo hi pitch : R) :
  lo <= hi -> 0 < pitch <= 20 ->
  hi < lo + (pitch / 3) * IZR (truncate ((hi - lo + 20) * 3 / pitch)) /\
  hi < lo + pitch * IZR (truncate ((hi - lo + 20) * 3 / pitch)).
Proof.
  intros Hlh Hp. set (q := (hi - lo + 20) * 3 / pitch).
  assert (Hq : pitch * q = (hi - lo + 20) * 3) by (unfold q; field; lra).
  assert (H0 : 0 <= q).
  { unfold q. apply Rmult_le_pos; [lra |]. left. apply Rinv_0_lt_compat. lra. }
  destruct (truncate_nonneg q H0) as [Hlo _].
  assert (pitch * (q - 1) < pitch * IZR (truncate q))
    by (apply Rmult_lt_compat_l; lra).
  lra.
Qed.

Lemma quotient_fits (lo hi pitch M k : R) :
  lo <= hi -> 0 < pitch -> hi - lo <= 2 * M -> 1 <= k <= 3 ->
  (2 * M + 20) * 3 < 2147483648 * pitch ->
  0 <= (hi - lo + 20) * k / pitch < 2147483648.
Proof.
  intros Hlh Hp HM Hk Hfit.
  assert (Hinv : 0 < / pitch) by (apply Rinv_0_lt_compat; lra).
  split.
  - apply Rmult_le_pos; [| lra]. apply Rmult_le_pos; lra.
  - apply (Rmult_lt_reg_r pitch); [lra |].
    unfold Rdiv. rewrite Rmult_assoc, Rinv_l by lra.
    assert ((hi - lo + 20) * k <= (2 * M + 20) * 3) by nra.
    lra.
Qed.

Lemma Rabs_le_between (a b : R) : Rabs a <= b -> - b <= a <= b.
Proof. unfold Rabs. destruct (Rcase_abs a); lra. Qed.

(** X10: on a non-empty collection whose coordinates are at most M in
    absolute value, with a pitch in (0, 20] for which (2M + 20) * 3 / pitch
    fits an Int_t, SetBoundaries followed by the axis computation of
    DrawHistograms succeeds, and every hit falls inside the range of every
    axis of the three 2D and the three 1D histograms: none lands in an
    underflow or overflow bin. *)
Theorem histograms_hold_every_hit (this : DrawnEvent) (pitch M : R) :
  let l := hits (fHits (base this)) in
  l <> [] ->
  0 < pitch <= 20 ->
  (forall h : Hit, In h l ->
     Rabs (TVector3.X (hit_pos h)) <= M /\
     Rabs (TVector3.Y (hit_pos h)) <= M /\
     Rabs (TVector3.Z (hit_pos h)) <= M) ->
  (2 * M + 20) * 3 < 2147483648 * pitch ->
  exists (this' : DrawnEvent) (H : Histograms),
    SetBoundaries this = Some (tt, this') /\
    DrawHistograms_axes pitch this' = Some H /\
    forall h : Hit, In h l ->
      let x := TVector3.X (hit_pos h) in
      let y := TVector3.Y (hit_pos h) in
      let z := TVector3.Z (hit_pos h) in
      in_axis x (fst (fXYHisto H)) /\ in_axis y (snd (fXYHisto H)) /\
      in_axis x (fst (fXZHisto H)) /\ in_axis z (snd (fXZHisto H)) /\
      in_axis y (fst (fYZHisto H)) /\ in_axis z (snd (fYZHisto H)) /\
      in_axis x (fXHisto H) /\ in_axis y (fYHisto H) /\ in_axis z (fZHisto H).
Proof.
  intros l Hne Hp HM Hfit.
  destruct l as [| h0 l0] eqn:Hl; [contradiction |]. rewrite <- Hl in *. clear Hne.
  assert (Hin0 : In h0 l) by (rewrite Hl; now left).
  eexists. eexists. split; [apply SetBoundaries_run |]. fold l.
  set (xs := map (fun h => TVector3.X (hit_pos h)) l).
  set (ys := map (fun h => TVector3.Y (hit_pos h)) l).
  set (zs := map (fun h => TVector3.Z (hit_pos h)) l).
  assert (HM0 : 0 <= M).
  { destruct (HM h0 Hin0) as [H _]. eapply Rle_trans; [apply Rabs_pos | exact H]. }
  assert (Hcoord : forall (f : Hit -> R),
            (forall h, In h l -> Rabs (f h) <= M) ->
            let lo := fold_left Rmin (map f l) 1e10 in
            let hi := fold_left Rmax (map f l) (-1e10) in
            (forall h, In h l -> lo <= f h <= hi) /\ lo <= hi /\ hi - lo <= 2 * M).
  { intros f Hf lo hi.
    assert (Hbox : forall h, In h l -> lo <= f h <= hi).
    { intros h Hh. split; [apply fold_Rmin_le_elt | apply fold_Rmax_ge_elt];
        apply in_map_iff; exists h; split; trivial. }
    split; [exact Hbox |]. split; [specialize (Hbox h0 Hin0); lra |].
    assert (hi <= M).
    { apply fold_Rmax_le; [lra |]. intros x Hx.
      apply in_map_iff in Hx as [h [<- Hh]].
      specialize (Hf h Hh). apply Rabs_le_between in Hf. lra. }
    assert (- M <= lo).
    { apply fold_Rmin_ge; [lra |]. intros x Hx.
      apply in_map_iff in Hx as [h [<- Hh]].
      specialize (Hf h Hh). apply Rabs_le_between in Hf. lra. }
    lra. }
  destruct (Hcoord (fun h => TVector3.X (hit_pos h)) (fun h Hh => proj1 (HM h Hh)))
    as [HbX [HlhX HrX]].
  destruct (Hcoord (fun h => TVector3.Y (hit_pos h))
              (fun h Hh => proj1 (proj2 (HM h Hh)))) as [HbY [HlhY HrY]].
  destruct (Hcoord (fun h => TVector3.Z (hit_pos h))
              (fun h Hh => proj2 (proj2 (HM h Hh)))) as [HbZ [HlhZ HrZ]].
  fold xs in HbX, HlhX, HrX. fold ys in HbY, HlhY, HrY. fold zs in HbZ, HlhZ, HrZ.
  set (loX := fold_left Rmin xs 1e10) in *. set (hiX := fold_left Rmax xs (-1e10)) in *.
  set (loY := fold_left Rmin ys 1e10) in *. set (hiY := fold_left Rmax ys (-1e10)) in *.
  set (loZ := fold_left Rmin zs 1e10) in *. set (hiZ := fold_left Rmax zs (-1e10)) in *.
  assert (HqX := quotient_fits loX hiX pitch M 1 HlhX (proj1 Hp) HrX ltac:(lra) Hfit).
  assert (HqY := quotient_fits loY hiY pitch M 1 HlhY (proj1 Hp) HrY ltac:(lra) Hfit).
  assert (HqZ := quotient_fits loZ hiZ pitch M 3 HlhZ (proj1 Hp) HrZ ltac:(lra) Hfit).
  rewrite Rmult_1_r in HqX, HqY.
  unfold DrawHistograms_axes. cbn [fMinX fMaxX fMinY fMaxY fMinZ fMaxZ].
  rewrite (Reqb_false pitch 0) by lra.
  rewrite (to_Int_t_fits _ (proj1 HqX) (proj2 HqX)).
  rewrite (to_Int_t_fits _ (proj1 HqY) (proj2 HqY)).
  rewrite (to_Int_t_fits _ (proj1 HqZ) (proj2 HqZ)).
  split; [reflexivity |].
  intros h Hh. cbv zeta. unfold in_axis.
  cbn [fXYHisto fXZHisto fYZHisto fXHisto fYHisto fZHisto fst snd xlow xup].
  specialize (HbX h Hh). specialize (HbY h Hh). specialize (HbZ h Hh).
  cbv beta in HbX, HbY, HbZ.
  assert (UX := upper_edge_above loX hiX pitch HlhX Hp).
  assert (UY := upper_edge_above loY hiY pitch HlhY Hp).
  destruct (upper_edge_above_3 loZ hiZ pitch HlhZ Hp) as [UZ3 UZ1].
  fold xs ys zs. fold loX hiX loY hiY loZ hiZ.
  repeat split; lra.
Qed.

Lemma histograms_hold_every_hit_witness :
  let h := mkHit (TVector3.mk 1 2 3) 4 0 REST_HitType.XYZ in
  let this := mkDrawn (mkEvent (mkHits [h] 4) None None None) (-10) 10 (-10) 10 (-10) 10 in
  exists (this' : DrawnEvent) (H : Histograms),
    SetBoundaries this = Some (tt, this') /\
    DrawHistograms_axes 3 this' = Some H /\
    forall h : Hit, In h (hits (fHits (base this))) ->
      let x := TVector3.X (hit_pos h) in
      let y := TVector3.Y (hit_pos h) in
      let z := TVector3.Z (hit_pos h) in
      in_axis x (fst (fXYHisto H)) /\ in_axis y (snd (fXYHisto H)) /\
      in_axis x (fst (fXZHisto H)) /\ in_axis z (snd (fXZHisto H)) /\
      in_axis y (fst (fYZHisto H)) /\ in_axis z (snd (fYZHisto H)) /\
      in_axis x (fXHisto H) /\ in_axis y (fYHisto H) /\ in_axis z (fZHisto H).
Proof.
  cbv zeta.
  apply (histograms_hold_every_hit
           (mkDrawn (mkEvent (mkHits [mkHit (TVector3.mk 1 2 3) 4 0 REST_HitType.XYZ] 4)
                             None None None) (-10) 10 (-10) 10 (-10) 10) 3 3).
  - discriminate.
  - lra.
  - intros h [<- | []]. cbn. rewrite !Rabs_pos_eq by lra. lra.
  - lra.
Defined.

(** ** DrawGraph2D and the other selections *)

Lemma DrawGraph2D_data_run (ev : TRestHitsEvent) :
  let l := hits (fHits ev) in
  let xz := filter (collects REST_HitType.XZ) l in
  let yz := filter (collects REST_HitType.YZ) l in
  DrawGraph2D_data ev
  = Some (mkGraph2D
            (map (fun h => TVector3.X (hit_pos h)) xz)
            (map (fun h => TVector3.Z (hit_pos h)) xz)
            (map hit_energy xz)
            (map (fun h => TVector3.Y (hit_pos h)) yz)
            (map (fun h => TVector3.Z (hit_pos h)) yz)
            (map hit_energy yz), ev).
Proof.
  intros l xz yz. unfold DrawGraph2D_data. call.
  rewrite (for_loop_read _ graph2d_step).
  2:{ intros i h s Hn. rewrite (bind_Some _ _ _ _ _ (GetHit_run ev i h Hn)).
      reflexivity. }
  fold l. do 2 f_equal.
  set (d0 := mkGraph2D [] [] [] [] [] []).
  assert (Hsel : forall (B : Type) (proj : Graph2DData -> list B)
                   (wanted : REST_HitType.t) (f : Hit -> B),
            (forall d h, proj (graph2d_step d h)
                         = if collects wanted h then proj d ++ [f h] else proj d) ->
            proj d0 = [] ->
            proj (fold_left graph2d_step l d0) = map f (filter (collects wanted) l)).
  { intros B proj wanted f Hstep H0.
    rewrite (fold_append_if (collects wanted) f proj graph2d_step Hstep).
    now rewrite H0. }
  assert (Hstep : forall d h,
            graph2d_step d h
            = mkGraph2D
                (if collects REST_HitType.XZ h
                 then _xzx d ++ [TVector3.X (hit_pos h)] else _xzx d)
                (if collects REST_HitType.XZ h
                 then _xzz d ++ [TVector3.Z (hit_pos h)] else _xzz d)
                (if collects REST_HitType.XZ h
                 then _xze d ++ [hit_energy h] else _xze d)
                (if collects REST_HitType.YZ h
                 then _yzy d ++ [TVector3.Y (hit_pos h)] else _yzy d)
                (if collects REST_HitType.YZ h
                 then _yzz d ++ [TVector3.Z (hit_pos h)] else _yzz d)
                (if collects REST_HitType.YZ h
                 then _yze d ++ [hit_energy h] else _yze d)).
  { intros d h. unfold graph2d_step, collects.
    destruct (REST_HitType.eqb (hit_type h) REST_HitType.XZ),
             (REST_HitType.eqb (hit_type h) REST_HitType.YZ);
      destruct d; reflexivity. }
  assert (Heta : forall d, d = mkGraph2D (_xzx d) (_xzz d) (_xze d)
                                         (_yzy d) (_yzz d) (_yze d))
    by (intros []; reflexivity).
  rewrite (Heta (fold_left graph2d_step l d0)).
  f_equal; apply Hsel; try reflexivity; intros; now rewrite Hstep.
Qed.

Lemma combine_map_map {A B C : Type} (f : A -> B) (g : A -> C) (l : list A) :
  combine (map f l) (map g l) = map (fun a => (f a, g a)) l.
Proof. induction l as [| a l IH]; cbn; [reflexivity | now rewrite IH]. Qed.

Lemma collects_is_drawn (T : REST_HitType.t) (h : Hit) :
  collects T h = true -> drawn_on T h = true.
Proof.
  unfold collects. intros H. apply eqb_hit_type in H.
  unfold drawn_on. rewrite H. now destruct T.
Qed.

Lemma incl_filter_map {A B : Type} (p q : A -> bool) (f : A -> B) (l : list A) :
  (forall a, p a = true -> q a = true) ->
  incl (map f (filter p l)) (map f (filter q l)).
Proof.
  intros Hpq b Hb. apply in_map_iff in Hb as [a [<- Ha]].
  apply filter_In in Ha as [Hin Hp].
  apply in_map, filter_In. split; [exact Hin | now apply Hpq].
Qed.

(** X11: the loop of DrawGraph2D fills three vectors of one length for XZ
    and three of one length for YZ, with the coordinates and energies of
    exactly the hits that GetXZHits and GetYZHits collect, in their order;
    every point it takes is also a point that DrawGraphs takes for the same
    projection. *)
Theorem DrawGraph2D_takes_the_collected_hits (hs cxz cyz cxyz : TRestHits) :
  let ev := mkEvent hs (Some cxz) (Some cyz) (Some cxyz) in
  exists (d : Graph2DData) (xz yz : TRestHits) (e1 e2 : TRestHitsEvent)
         (gxz gyz gxy : list (R * R)),
    DrawGraph2D_data ev = Some (d, ev) /\
    GetXZHits ev = Some (xz, e1) /\
    GetYZHits ev = Some (yz, e2) /\
    DrawGraphs_points ev = Some ((gxz, gyz, gxy), ev) /\
    _xzx d = map (fun h => TVector3.X (hit_pos h)) (hits xz) /\
    _xzz d = map (fun h => TVector3.Z (hit_pos h)) (hits xz) /\
    _xze d = map hit_energy (hits xz) /\
    _yzy d = map (fun h => TVector3.Y (hit_pos h)) (hits yz) /\
    _yzz d = map (fun h => TVector3.Z (hit_pos h)) (hits yz) /\
    _yze d = map hit_energy (hits yz) /\
    length (_xzx d) = length (_xzz d) /\ length (_xzz d) = length (_xze d) /\
    length (_yzy d) = length (_yzz d) /\ length (_yzz d) = length (_yze d) /\
    incl (combine (_xzx d) (_xzz d)) gxz /\
    incl (combine (_yzy d) (_yzz d)) gyz.
Proof.
  intros ev. do 8 eexists.
  split; [apply DrawGraph2D_data_run |].
  split; [apply (collect_hits_of_type_run XZcache REST_HitType.XZ ev cxz eq_refl) |].
  split; [apply (collect_hits_of_type_run YZcache REST_HitType.YZ ev cyz eq_refl) |].
  split; [apply DrawGraphs_points_run |].
  cbn [hits _xzx _xzz _xze _yzy _yzz _yze]. rewrite !map_retag_collected.
  repeat (split; [reflexivity |]).
  rewrite !length_map.
  repeat (split; [reflexivity |]).
  rewrite !combine_map_map. unfold drawn.
  split; apply incl_filter_map; intros h; apply collects_is_drawn.
Qed.

(** X12: the test [type % T == 0] of the drawing loops holds exactly when
    every coordinate that the projection T shows is one that the type of the
    hit declares as measured; the test [==] of the collecting functions
    holds exactly when the two declare the same coordinates. *)
Theorem projection_tests_compare_coordinates (T ty : REST_HitType.t) :
  projects_on T (REST_HitType.value ty)
  = implb (has_x T) (has_x ty) && implb (has_y T) (has_y ty)
    && implb (has_z T) (has_z ty) /\
  REST_HitType.eqb ty T
  = Bool.eqb (has_x T) (has_x ty) && Bool.eqb (has_y T) (has_y ty)
    && Bool.eqb (has_z T) (has_z ty).
Proof. destruct T, ty; split; reflexivity. Qed.

(** ** Shuffle *)

Lemma set_nth_swap_head {A} (l : list A) (j : nat) (b x : A) :
  nth_error l j = Some b -> Permutation (b :: set_nth l j x) (x :: l).
Proof.
  revert j. induction l as [| y l IH]; intros [| j] Hj; try discriminate Hj.
  - cbn in Hj. injection Hj as ->. apply perm_swap.
  - cbn in Hj. change (set_nth (y :: l) (S j) x) with (y :: set_nth l j x).
    eapply perm_trans; [apply perm_swap |].
    eapply perm_trans; [apply perm_skip, (IH j Hj) |]. apply perm_swap.
Qed.

Lemma set_nth_exchange {A} (l : list A) (i j : nat) (a b : A) :
  nth_error l i = Some a -> nth_error l j = Some b ->
  Permutation (set_nth (set_nth l i b) j a) l.
Proof.
  revert i j. induction l as [| x l IH]; intros [| i] [| j] Hi Hj;
    try discriminate Hi; try discriminate Hj; cbn in Hi, Hj.
  - injection Hi as ->. injection Hj as ->. apply Permutation_refl.
  - injection Hi as ->.
    change (set_nth (set_nth (a :: l) 0 b) (S j) a) with (b :: set_nth l j a).
    now apply set_nth_swap_head.
  - injection Hj as ->.
    change (set_nth (set_nth (b :: l) (S i) b) 0 a) with (a :: set_nth l i b).
    now apply set_nth_swap_head.
  - change (set_nth (set_nth (x :: l) (S i) b) (S j) a)
      with (x :: set_nth (set_nth l i b) j a).
    apply perm_skip. now apply IH.
Qed.

(** [exchange] is a possible SwapHits: inside the collection it succeeds
    and permutes the hits. *)
Lemma exchange_permutes (hs : TRestHits) (i j : BinNums.Z) :
  (0 <= i < Z.of_nat (length (hits hs)))%Z ->
  (0 <= j < Z.of_nat (length (hits hs)))%Z ->
  exists hs', exchange hs i j = Some hs' /\ Permutation (hits hs') (hits hs).
Proof.
  intros Hi Hj. unfold exchange.
  replace ((i <? 0) || (j <? 0))%Z with false
    by (symmetry; apply orb_false_iff; split; apply Z.ltb_ge; lia).
  destruct (nth_error (hits hs) (Z.to_nat i)) as [a |] eqn:Ea;
    [| apply nth_error_None in Ea; lia].
  destruct (nth_error (hits hs) (Z.to_nat j)) as [b |] eqn:Eb;
    [| apply nth_error_None in Eb; lia].
  eexists. split; [reflexivity |]. cbn [hits].
  now apply set_nth_exchange.
Qed.

Section ShuffleProperties.
Variable SwapHits : TRestHits -> BinNums.Z -> BinNums.Z -> option TRestHits.
Variable Uniform01 : nat -> R.

Lemma random_index (n : nat) (u : R) :
  (Z.of_nat n < 2147483648)%Z -> 0 < u < 1 ->
  exists k : BinNums.Z,
    to_Int_t (INR n * u) = Some k /\ (n <> 0%nat -> (0 <= k < Z.of_nat n)%Z).
Proof.
  intros Hn Hu.
  assert (H0 : 0 <= INR n) by apply pos_INR.
  assert (Hr : 0 <= INR n * u) by (apply Rmult_le_pos; lra).
  assert (Hlt : INR n * u <= INR n) by nra.
  assert (HN : INR n < 2147483648).
  { rewrite INR_IZR_INZ. now apply IZR_lt. }
  exists (truncate (INR n * u)). split; [apply to_Int_t_fits; lra |].
  intros Hne. destruct (truncate_nonneg _ Hr) as [Hlo Hhi].
  assert (Hpos : 0 < INR n) by (apply lt_0_INR; lia).
  assert (Hstrict : INR n * u < INR n) by nra.
  assert (E := INR_IZR_INZ n).
  split; [apply Z.lt_succ_r, lt_IZR; rewrite succ_IZR; lra | apply lt_IZR; lra].
Qed.

Hypothesis Uniform01_range : forall k, 0 < Uniform01 k < 1.
Hypothesis SwapHits_permutes :
  forall hs i j,
    (0 <= i < Z.of_nat (length (hits hs)))%Z ->
    (0 <= j < Z.of_nat (length (hits hs)))%Z ->
    exists hs', SwapHits hs i j = Some hs' /\ Permutation (hits hs') (hits hs).

Lemma Shuffle_loop_permutes (count nHits drawn : nat) (hs : TRestHits) :
  length (hits hs) = nHits ->
  (2 <= nHits)%nat -> (Z.of_nat nHits < 2147483648)%Z ->
  exists hs',
    Shuffle_loop SwapHits Uniform01 count nHits drawn hs
    = Some ((drawn + 2 * count)%nat, hs') /\
    Permutation (hits hs') (hits hs).
Proof.
  revert drawn hs. induction count as [| count IH]; intros drawn hs Hlen H2 HN.
  - exists hs. cbn. split; [do 2 f_equal; lia | apply Permutation_refl].
  - cbn [Shuffle_loop].
    destruct (random_index nHits (Uniform01 drawn)) as [k1 [-> Hk1]];
      [exact HN | apply Uniform01_range |].
    destruct (random_index nHits (Uniform01 (S drawn))) as [k2 [-> Hk2]];
      [exact HN | apply Uniform01_range |].
    destruct (SwapHits_permutes hs k1 k2) as [hs1 [-> Hperm]];
      [rewrite Hlen; apply Hk1; lia | rewrite Hlen; apply Hk2; lia |].
    destruct (IH (S (S drawn)) hs1) as [hs' [E Hperm']];
      [rewrite (Permutation_length Hperm); exact Hlen | exact H2 | exact HN |].
    exists hs'. rewrite E. split; [do 2 f_equal; lia |].
    now transitivity (hits hs1).
Qed.

End ShuffleProperties.

(** X13: Shuffle does nothing at all, and takes no random number, on an
    event with fewer than two hits or for a number of loops that is not
    positive, whatever SwapHits and the generator are. *)
Theorem Shuffle_leaves_small_events_alone
    (SwapHits : TRestHits -> BinNums.Z -> BinNums.Z -> option TRestHits)
    (Uniform01 : nat -> R) (NLoop : BinNums.Z) (drawn : nat) (ev : TRestHitsEvent) :
  (length (hits (fHits ev)) < 2)%nat \/ (NLoop <= 0)%Z ->
  Shuffle SwapHits Uniform01 NLoop drawn ev = Some (drawn, ev).
Proof.
  intros H. unfold Shuffle. call. cbv beta.
  destruct (Nat.leb 2 (length (hits (fHits ev)))) eqn:E; [| reflexivity].
  apply Nat.leb_le in E. destruct H as [H | H]; [lia |].
  rewrite (bind_Some _ _ ev ev ev eq_refl).
  replace (Z.to_nat NLoop) with 0%nat by lia.
  cbn [Shuffle_loop].
  destruct ev as [hs a b c]. reflexivity.
Qed.

Lemma Shuffle_leaves_small_events_alone_witness :
  Shuffle exchange (fun _ => / 2) 5 0 constructed = Some (0%nat, constructed).
Proof.
  apply Shuffle_leaves_small_events_alone. left. cbn. lia.
Defined.

(** X14: with a generator whose values lie strictly between 0 and 1 and a
    SwapHits that, inside the collection, succeeds and permutes the hits,
    Shuffle on a collection that an Int_t can count succeeds, leaves a
    permutation of the hits and the caches as they were, takes two random
    numbers for each loop when there are at least two hits, and changes the
    result of none of the queries any, all, count and closest distances. *)
Theorem Shuffle_permutes_the_hits
    (SwapHits : TRestHits -> BinNums.Z -> BinNums.Z -> option TRestHits)
    (Uniform01 : nat -> R) (NLoop : BinNums.Z) (drawn : nat) (ev : TRestHitsEvent) :
  (forall k, 0 < Uniform01 k < 1) ->
  (forall hs i j,
     (0 <= i < Z.of_nat (length (hits hs)))%Z ->
     (0 <= j < Z.of_nat (length (hits hs)))%Z ->
     exists hs', SwapHits hs i j = Some hs' /\ Permutation (hits hs') (hits hs)) ->
  (Z.of_nat (length (hits (fHits ev))) < 2147483648)%Z ->
  exists (drawn' : nat) (ev' : TRestHitsEvent),
    Shuffle SwapHits Uniform01 NLoop drawn ev = Some (drawn', ev') /\
    Permutation (hits (fHits ev')) (hits (fHits ev)) /\
    fXZHits ev' = fXZHits ev /\ fYZHits ev' = fYZHits ev /\
    fXYZHits ev' = fXYZHits ev /\
    ((2 <= length (hits (fHits ev)))%nat ->
     drawn' = (drawn + 2 * Z.to_nat NLoop)%nat) /\
    forall (q : Query) (v : Volume),
      order_free q = true ->
      exists r : Result,
        run_query q v ev = Some (r, ev) /\ run_query q v ev' = Some (r, ev').
Proof.
  intros Hu Hswap Hlen.
  assert (Hq : forall ev', Permutation (hits (fHits ev')) (hits (fHits ev)) ->
            forall q v, order_free q = true -> exists r,
              run_query q v ev = Some (r, ev) /\ run_query q v ev' = Some (r, ev')).
  { intros ev' Hperm q v Hfree. exists (query_value q v (hits (fHits ev))).
    rewrite !run_query_value. split; [reflexivity |].
    now rewrite (query_value_perm q v _ _ Hfree Hperm). }
  destruct (Nat.leb 2 (length (hits (fHits ev)))) eqn:E.
  - assert (E2 := proj1 (Nat.leb_le _ _) E).
    destruct (Shuffle_loop_permutes SwapHits Uniform01 Hu Hswap
                (Z.to_nat NLoop) (length (hits (fHits ev))) drawn (fHits ev)
                eq_refl E2 Hlen) as [hs' [Hloop Hperm]].
    exists (drawn + 2 * Z.to_nat NLoop)%nat,
           (mkEvent hs' (fXZHits ev) (fYZHits ev) (fXYZHits ev)).
    split.
    { unfold Shuffle. call. cbv beta. rewrite E. cbv iota.
      rewrite (bind_Some _ _ ev ev ev eq_refl). cbv beta. rewrite Hloop.
      reflexivity. }
    split; [exact Hperm |]. do 3 (split; [reflexivity |]).
    split; [intros _; reflexivity |]. now apply Hq.
  - exists drawn, ev. split.
    { unfold Shuffle. call. cbv beta. now rewrite E. }
    split; [apply Permutation_refl |]. do 3 (split; [reflexivity |]).
    split; [apply Nat.leb_gt in E; lia |]. apply Hq, Permutation_refl.
Qed.

Lemma half_in_range : forall k : nat, 0 < (fun _ : nat => / 2) k < 1.
Proof. intros k. cbv beta. lra. Qed.

Lemma Shuffle_permutes_the_hits_witness :
  let a := mkHit (TVector3.mk 0 0 5) 2 0 REST_HitType.XYZ in
  let b := mkHit (TVector3.mk 10 0 5) 3 1 REST_HitType.XZ in
  let ev := mkEvent (mkHits [a; b] 0) None None None in
  exists (drawn' : nat) (ev' : TRestHitsEvent),
    Shuffle exchange (fun _ => / 2) 1 0 ev = Some (drawn', ev') /\
    Permutation (hits (fHits ev')) (hits (fHits ev)) /\
    fXZHits ev' = fXZHits ev /\ fYZHits ev' = fYZHits ev /\
    fXYZHits ev' = fXYZHits ev /\
    ((2 <= length (hits (fHits ev)))%nat -> drawn' = (0 + 2 * Z.to_nat 1)%nat) /\
    forall (q : Query) (v : Volume),
      order_free q = true ->
      exists r : Result,
        run_query q v ev = Some (r, ev) /\ run_query q v ev' = Some (r, ev').
Proof.
  cbv zeta. apply Shuffle_permutes_the_hits.
  - exact half_in_range.
  - exact exchange_permutes.
  - cbn. lia.
Defined.

(** ** The total energy, again *)

(** X15: CalculateTotalDepositedEnergy recomputes the total from the hits:
    after Initialize and AddHit for each hit of a list it returns the sum of
    the energies of the list, whatever the event and its stored total were
    before; a second call right after the first returns the same sum and
    leaves the same event. *)
Theorem total_energy_is_recomputed (ev : TRestHitsEvent) (l : list Hit) :
  (exists ev' : TRestHitsEvent,
     (Initialize ;; AddHits l ;; CalculateTotalDepositedEnergy) ev
     = Some (Hits.Rsum (map hit_energy l), ev') /\
     hits (fHits ev') = l /\
     fTotEnergy (fHits ev') = Hits.Rsum (map hit_energy l)) /\
  (CalculateTotalDepositedEnergy ;; CalculateTotalDepositedEnergy) ev
  = CalculateTotalDepositedEnergy ev.
Proof.
  split.
  - eexists.
    assert (Hinit : Initialize ev
                    = Some (tt, mkEvent (mkHits [] (fTotEnergy (fHits ev)))
                                  (Some (mkHits [] 0)) (Some (mkHits [] 0))
                                  (Some (mkHits [] 0)))) by reflexivity.
    rewrite (bind_Some _ _ _ _ _ Hinit).
    rewrite (bind_Some _ _ _ _ _ (AddHits_run l _)).
    rewrite CalculateTotalDepositedEnergy_run.
    cbn [fHits hits fTotEnergy app]. repeat split.
  - rewrite (bind_Some _ _ _ _ _ (CalculateTotalDepositedEnergy_run ev)).
    now rewrite !CalculateTotalDepositedEnergy_run.
Qed.

(** ** The options of DrawEvent *)

Module DrawOptionsFacts.
Import Ascii String DrawOptions.

Lemma find_past (c : ascii) (l1 l2 : std_string) :
  find c (l1 ++ l2)%list (Datatypes.length l1)
  = option_map (Nat.add (Datatypes.length l1)) (find c l2 0).
Proof.
  induction l1 as [| a l1 IH]; cbn.
  - destruct (find c l2 0); reflexivity.
  - rewrite IH. destruct (find c l2 0); reflexivity.
Qed.

Lemma find_none (l : std_string) :
  find ","%char l 0 = None -> map colon_for_comma l = l.
Proof.
  induction l as [| a l IH]; [reflexivity |]. cbn.
  unfold colon_for_comma at 1.
  destruct (Ascii.eqb a ","%char); [discriminate |].
  destruct (find ","%char l 0); [discriminate |].
  intros _. now rewrite IH.
Qed.

Lemma find_some (l : std_string) (k : nat) :
  find ","%char l 0 = Some k ->
  exists m1 m2 : std_string,
    l = (m1 ++ ","%char :: m2)%list /\ Datatypes.length m1 = k /\
    map colon_for_comma m1 = m1.
Proof.
  revert k. induction l as [| a l IH]; intros k; [discriminate |]. cbn.
  destruct (Ascii.eqb a ","%char) eqn:E.
  - intros [= <-]. apply Ascii.eqb_eq in E. subst a.
    exists []%list, l. repeat split.
  - destruct (find ","%char l 0) as [k' |]; [| discriminate].
    intros [= <-]. destruct (IH k' eq_refl) as [m1 [m2 [-> [Hlen Hmap]]]].
    exists (a :: m1)%list, m2. cbn. repeat split; [now rewrite Hlen |].
    unfold colon_for_comma at 1. rewrite E. now rewrite Hmap.
Qed.

Lemma replace_1_at (l1 m2 : std_string) (a c : ascii) :
  replace_1 (l1 ++ a :: m2)%list (Datatypes.length l1) c = (l1 ++ c :: m2)%list.
Proof.
  unfold replace_1, set_nth.
  rewrite firstn_app, Nat.sub_diag, firstn_all. cbn [firstn].
  rewrite app_nil_r. f_equal.
  induction l1 as [| b l1 IH]; [reflexivity | exact IH].
Qed.

Lemma commas_to_colons_from (fuel : nat) (l1 l2 : std_string) :
  (Datatypes.length l2 < fuel)%nat ->
  commas_to_colons fuel (l1 ++ l2)%list (Datatypes.length l1)
  = Some (l1 ++ map colon_for_comma l2)%list.
Proof.
  revert l1 l2. induction fuel as [| fuel IH]; intros l1 l2 Hfuel; [lia |].
  cbn [commas_to_colons]. rewrite find_past.
  destruct (find ","%char l2 0) as [k |] eqn:E; cbn [option_map].
  - destruct (find_some l2 k E) as [m1 [m2 [-> [Hlen Hmap]]]].
    rewrite app_assoc, <- Hlen, <- length_app, replace_1_at.
    replace (Datatypes.length (l1 ++ m1)%list + 1)%nat
      with (Datatypes.length ((l1 ++ m1) ++ [":"%char])%list)
      by (rewrite (length_app (l1 ++ m1)%list); reflexivity).
    replace ((l1 ++ m1) ++ ":"%char :: m2)%list
      with (((l1 ++ m1) ++ [":"%char]) ++ m2)%list
      by (now rewrite <- (app_assoc (l1 ++ m1)%list)).
    rewrite IH.
    + f_equal. rewrite map_app, Hmap. cbn [map].
      rewrite <- !app_assoc. reflexivity.
    + rewrite length_app in Hfuel. cbn in Hfuel. lia.
  - now rewrite (find_none l2 E).
Qed.

(** X16: the loop of DrawEvent over histOption ends, within one turn more
    than the string has characters, and leaves the string with every comma
    replaced by a colon and every other character, and so the length, as it
    was; more turns allowed change nothing. *)
Theorem commas_become_colons (histOption : std_string) (extra : nat) :
  commas_to_colons (Datatypes.S (Datatypes.length histOption + extra)) histOption 0
  = Some (map colon_for_comma histOption) /\
  Datatypes.length (map colon_for_comma histOption) = Datatypes.length histOption /\
  find ","%char (map colon_for_comma histOption) 0 = None.
Proof.
  split; [| split].
  - apply (commas_to_colons_from _ []%list histOption). lia.
  - apply length_map.
  - induction histOption as [| a l IH]; [reflexivity |]. cbn.
    unfold colon_for_comma at 1.
    destruct (Ascii.eqb a ","%char) eqn:E; [| rewrite E]; now rewrite IH.
Qed.

(** X17: whatever list of options DrawEvent receives, PrintEvent is called
    once for each "print" in it, and the list that reaches the drawing loop
    holds no "print" and is never empty: it is the other options in their
    order, or "graph2d" alone when there is none; the pad is divided into 3
    columns and twice as many rows as options remain, at least 2. *)
Theorem DrawEvent_always_draws (optList : list string) :
  let '(prints, opts, (columns, rows)) := DrawEvent_options optList in
  let others := filter (fun o => negb (String.eqb o "print")) optList in
  prints = count_occ string_dec optList "print"%string /\
  opts <> []%list /\
  ~ In "print"%string opts /\
  opts = match others with
         | []%list => ["graph2d"%string]
         | (_ :: _)%list => others
         end /\
  columns = 3%Z /\
  rows = (2 * Z.of_nat (Datatypes.length opts))%Z /\ (2 <= rows)%Z.
Proof.
  unfold DrawEvent_options. cbv zeta.
  set (others := filter (fun o => negb (String.eqb o "print")) optList).
  assert (Hno : ~ In "print"%string others).
  { unfold others. intros Hin. apply filter_In in Hin as [_ H].
    now rewrite String.eqb_refl in H. }
  split.
  { clear. induction optList as [| o l IH]; [reflexivity |]. cbn.
    destruct (string_dec o "print") as [-> | Hne].
    - rewrite String.eqb_refl. cbn. now rewrite IH.
    - apply String.eqb_neq in Hne. now rewrite Hne. }
  destruct others as [| o l]; cbn.
  - repeat split; try discriminate; try lia. intros [H | []]. discriminate H.
  - repeat split; try discriminate; try lia. exact Hno.
Qed.

End DrawOptionsFacts.

(** ** An initialized event *)

(** X19: right after Initialize, whatever the event held, every query on
    every volume answers as for no hit at all: none inside, all inside,
    count 0, energy 0, the zero vector as mean position and -1 for the three
    closest distances; the event then has no hit. *)
Theorem an_initialized_event_is_empty
    (q : Query) (v : Volume) (ev : TRestHitsEvent) :
  exists ev' : TRestHitsEvent,
    Initialize ev = Some (tt, ev') /\
    hits (fHits ev') = [] /\
    GetNumberOfHits ev' = Some (0%nat, ev') /\
    run_query q v ev'
    = Some (match q with
            | AnyInside => Bool_r false
            | AllInside => Bool_r true
            | CountInside => Int_r 0
            | EnergyInside => Double_r 0
            | MeanPositionInside => Vector_r TVector3.zero
            | ClosestDistanceToWall | ClosestDistanceToTop
            | ClosestDistanceToBottom => Double_r (-1)
            end, ev').
Proof.
  exists (mkEvent (Hits.RemoveHits (fHits ev)) (Some (mkHits [] 0))
                  (Some (mkHits [] 0)) (Some (mkHits [] 0))).
  split; [reflexivity |]. split; [reflexivity |].
  split; [reflexivity |].
  rewrite run_query_value. cbn [fHits hits Hits.RemoveHits].
  destruct q, v; reflexivity.
Qed.
